(** * The client data cache of the NBA dashboard (store/useNBAStore.ts)

    A shallow embedding of the zustand store that caches players, teams and
    injury predictions, together with the asynchronous behaviour of its
    operations.  Every [async] operation is split at its [await]: the part
    that runs synchronously when the operation is called (it ends by issuing
    a network request), and the continuation that runs when the request
    settles.  A [World] holds the store state, the suspended continuations
    and the log of the requests issued so far.

    Identifiers (player ids, team ids) are integers; the other numeric
    fields are only ever copied and are kept as rationals. *)

From stdpp Require Import gmap list strings sorting.
From Stdlib Require Import ZArith QArith.

Set Default Proof Using "Type".
Set Warnings "-clear-no-such-hyp".
Local Open Scope Z_scope.

(** ** Data model: the exported interfaces *)

Module CurrentInjury.
Record t := mk {
  injury_type : option string;
  status : option string;
  date : option string;
  games_missed : option Q
}.
End CurrentInjury.

Module SeasonAverages.
Record t := mk {
  pts : option Q;
  reb : option Q;
  ast : option Q;
  stl : option Q;
  blk : option Q;
  fg_pct : option Q;
  fg3_pct : option Q;
  ft_pct : option Q;
  min : option Q
}.
End SeasonAverages.

(** [interface Player].  A field declared [f?: T | null] is [option T]:
    [None] stands for a field without a value. *)
Module Player.
Record t := mk {
  id : Z;
  full_name : string;
  first_name : string;
  last_name : string;
  position : string;
  height_feet : option Q;
  height_inches : option Q;
  weight_pounds : option Q;
  team_abbreviation : option string;
  team_full_name : option string;
  team_id : Z;
  is_active : bool;
  current_injury : option CurrentInjury.t;
  season_averages : option SeasonAverages.t;
  headshot_url : option string
}.
End Player.

(** The body of a [/player/{id}/info] response: an object carrying any
    subset of the properties of a player.  [None] is a property that the
    response does not have; [Some v] is a property present with value [v]
    (for an optional field [v] may itself be "no value"). *)
Module PlayerInfo.
Record t := mk {
  id : option Z;
  full_name : option string;
  first_name : option string;
  last_name : option string;
  position : option string;
  height_feet : option (option Q);
  height_inches : option (option Q);
  weight_pounds : option (option Q);
  team_abbreviation : option (option string);
  team_full_name : option (option string);
  team_id : option Z;
  is_active : option bool;
  current_injury : option (option CurrentInjury.t);
  season_averages : option (option SeasonAverages.t);
  headshot_url : option (option string)
}.
End PlayerInfo.

(** [interface Team]. *)
Module Team.
Record t := mk {
  id : Z;
  abbreviation : string;
  city : string;
  conference : string;
  division : string;
  full_name : string;
  name : string;
  state : string
}.
End Team.

Inductive RiskLevel := Low | Medium | High.

(** [interface InjuryPrediction]. *)
Module Factors.
Record t := mk {
  temperature : Q;
  humidity : Q;
  timestamp : string
}.
End Factors.

Module InjuryPrediction.
Record t := mk {
  player_id : Z;
  injury_risk : Q;
  risk_level : RiskLevel;
  factors : Factors.t
}.
End InjuryPrediction.

(** The prediction as the backend sends it:
    [{ player_id, injury_risk, risk_level,
       contributing_factors: { environmental: { temperature, humidity } },
       timestamp }], where [contributing_factors], [environmental] and the
    two readings may each be missing. *)
Module Environmental.
Record t := mk {
  temperature : option Q;
  humidity : option Q
}.
End Environmental.

Module ContributingFactors.
Record t := mk {
  environmental : option Environmental.t
}.
End ContributingFactors.

Module PredictionResponse.
Record t := mk {
  player_id : Z;
  injury_risk : Q;
  risk_level : RiskLevel;
  contributing_factors : option ContributingFactors.t;
  timestamp : string
}.
End PredictionResponse.

(** What the prediction map holds.  [predictInjury] stores the normalized
    shape; [batchPredictAll] stores each response object as it came
    ([pred as any]). *)
Inductive Stored :=
  | Normalized (p : InjuryPrediction.t)
  | AsReceived (p : PredictionResponse.t).

(** ** [Map<number, V>]

    A JavaScript [Map] keeps its entries in insertion order.  It is modelled
    as the list of its entries; that no key occurs twice is not built into
    the type but is a property of the operations, proved below. *)
Module JsMap.
Section JsMap.
Context {V : Type}.

(** [m.set(k, v)]: replaces the value of an existing key in place,
    appends a new entry otherwise. *)
Fixpoint set (k : Z) (v : V) (m : list (Z * V)) : list (Z * V) :=
  match m with
  | [] => [(k, v)]
  | (k', v') :: rest =>
      if Z.eqb k k' then (k, v) :: rest else (k', v') :: set k v rest
  end.

(** [m.get(k)]. *)
Fixpoint get (k : Z) (m : list (Z * V)) : option V :=
  match m with
  | [] => None
  | (k', v') :: rest => if Z.eqb k k' then Some v' else get k rest
  end.

(** [new Map(m)]: a new map into which the entries of [m] are set one
    after the other. *)
Definition copy (m : list (Z * V)) : list (Z * V) :=
  fold_left (fun acc e => set e.1 e.2 acc) m [].

(** The number of entries of [m] under the key [k]. *)
Definition entries_for (k : Z) (m : list (Z * V)) : nat :=
  length (List.filter (fun e => Z.eqb e.1 k) m).

End JsMap.
End JsMap.

(** ** The store state ([interface NBAState], data part) *)

Record NBAState := mkState {
  players : list Player.t;
  teams : list Team.t;
  loading : bool;
  error : option string;
  selectedPlayerId : option Z;
  injuryPredictions : list (Z * Stored);
  (** One [Set] object for the whole life of the store: no operation ever
      replaces it, [fetchPlayerInfo] adds to it and deletes from it in
      place. *)
  fetchingInfo : gset Z;
  teamsFetching : bool;
  predictionsBatching : bool
}.

(** The initial state given to [create]. *)
Definition initialState : NBAState :=
  {| players := []; teams := []; loading := false; error := None;
     selectedPlayerId := None; injuryPredictions := []; fetchingInfo := ∅;
     predictionsBatching := false; teamsFetching := false |}.

(** [set({ f: v })] merges the given fields into the state and keeps the
    others; one function per field that the store writes. *)
Definition set_players (v : list Player.t) (s : NBAState) : NBAState :=
  mkState v (teams s) (loading s) (error s) (selectedPlayerId s)
    (injuryPredictions s) (fetchingInfo s) (teamsFetching s)
    (predictionsBatching s).

Definition set_teams (v : list Team.t) (s : NBAState) : NBAState :=
  mkState (players s) v (loading s) (error s) (selectedPlayerId s)
    (injuryPredictions s) (fetchingInfo s) (teamsFetching s)
    (predictionsBatching s).

Definition set_loading (v : bool) (s : NBAState) : NBAState :=
  mkState (players s) (teams s) v (error s) (selectedPlayerId s)
    (injuryPredictions s) (fetchingInfo s) (teamsFetching s)
    (predictionsBatching s).

Definition set_error (v : option string) (s : NBAState) : NBAState :=
  mkState (players s) (teams s) (loading s) v (selectedPlayerId s)
    (injuryPredictions s) (fetchingInfo s) (teamsFetching s)
    (predictionsBatching s).

Definition set_selectedPlayerId (v : option Z) (s : NBAState) : NBAState :=
  mkState (players s) (teams s) (loading s) (error s) v
    (injuryPredictions s) (fetchingInfo s) (teamsFetching s)
    (predictionsBatching s).

Definition set_injuryPredictions (v : list (Z * Stored)) (s : NBAState)
  : NBAState :=
  mkState (players s) (teams s) (loading s) (error s) (selectedPlayerId s)
    v (fetchingInfo s) (teamsFetching s) (predictionsBatching s).

(** Not a [set] call: the in-place [add] and [delete] on the shared set. *)
Definition mutate_fetchingInfo (f : gset Z → gset Z) (s : NBAState)
  : NBAState :=
  mkState (players s) (teams s) (loading s) (error s) (selectedPlayerId s)
    (injuryPredictions s) (f (fetchingInfo s)) (teamsFetching s)
    (predictionsBatching s).

Definition set_teamsFetching (v : bool) (s : NBAState) : NBAState :=
  mkState (players s) (teams s) (loading s) (error s) (selectedPlayerId s)
    (injuryPredictions s) (fetchingInfo s) v (predictionsBatching s).

Definition set_predictionsBatching (v : bool) (s : NBAState) : NBAState :=
  mkState (players s) (teams s) (loading s) (error s) (selectedPlayerId s)
    (injuryPredictions s) (fetchingInfo s) (teamsFetching s) v.

(** ** The network and the suspended operations *)

(** The requests that the store sends through [api]. *)
Inductive Request :=
  | GetPlayersSummary                              (* GET /players/summary *)
  | GetPlayers                                     (* GET /players *)
  | GetTeams                                       (* GET /teams *)
  | PostPredictInjury (player_id : Z) (temperature humidity : Q)
                                                   (* POST /predict_injury *)
  | GetPlayerInfo (player_id : Z)                  (* GET /player/{id}/info *)
  | PostPredictBulk (ids : list Z).                (* POST /predict_injury/bulk *)

(** An operation suspended at its [await], with the variables of the call
    that its continuation reads. *)
Inductive Task :=
  | AwaitSummary                 (* fetchPlayers, awaiting /players/summary *)
  | AwaitPlayers                 (* fetchPlayers, awaiting the /players fallback *)
  | AwaitTeams                   (* fetchTeams *)
  | AwaitPredict (playerId : Z) (temperature humidity : Q)   (* predictInjury *)
  | AwaitInfo (playerId : Z)     (* fetchPlayerInfo *)
  | AwaitBulk.                   (* batchPredictAll *)

(** [res.data] of a fulfilled request, by endpoint.  The body of the bulk
    endpoint is an object [{ [id]: prediction }], given by its properties
    in enumeration order. *)
Inductive Payload :=
  | PlayersData (data : list Player.t)
  | TeamsData (data : list Team.t)
  | PredictionData (data : PredictionResponse.t)
  | InfoData (data : PlayerInfo.t)
  | BulkData (data : list (Z * PredictionResponse.t)).

(** How a request settles: fulfilled with a body, or rejected with an error
    whose [message] the handlers read. *)
Inductive Response :=
  | Fulfilled (data : Payload)
  | Rejected (message : string).

(** The store, the suspended operations in the order in which they were
    suspended, and the requests sent so far, oldest first. *)
Record World := mkWorld {
  store : NBAState;
  inflight : list Task;
  requests : list Request
}.

Definition initialWorld : World := mkWorld initialState [] [].

(** [set] applied to the store of a world. *)
Definition update (f : NBAState → NBAState) (w : World) : World :=
  mkWorld (f (store w)) (inflight w) (requests w).

(** The call [api.get(...)] / [api.post(...)] followed by [await]: the
    request goes out and the caller is suspended. *)
Definition send (r : Request) (t : Task) (w : World) : World :=
  mkWorld (store w) (inflight w ++ [t]) (requests w ++ [r]).

(** ** The operations of the store

    For an [async] operation [f], the definition [f] is the part of its body
    that runs at the call, up to and including the request before its
    [await]; [f_settled] is the rest of the body, run when that request
    settles.  Everything between two [await]s runs without interruption. *)

(** *** fetchPlayers *)

Definition fetchPlayers (w : World) : World :=
  let w1 :=
    if Nat.eqb (length (players (store w))) 0
    then update (fun s => set_error None (set_loading true s)) w
    else w in
  send GetPlayersSummary AwaitSummary w1.

(** After [await api.get('/players/summary')]: the [catch] branch only logs
    a warning and asks the fallback endpoint. *)
Definition fetchPlayers_summary_settled (r : Response) (w : World)
  : option World :=
  match r with
  | Fulfilled (PlayersData data) =>
      Some (update (fun s => set_loading false (set_players data s)) w)
  | Fulfilled _ => None
  | Rejected _ => Some (send GetPlayers AwaitPlayers w)
  end.

(** After [await api.get('/players')]. *)
Definition fetchPlayers_basic_settled (r : Response) (w : World)
  : option World :=
  match r with
  | Fulfilled (PlayersData data) =>
      Some (update (fun s => set_loading false (set_players data s)) w)
  | Fulfilled _ => None
  | Rejected message =>
      Some (update (fun s => set_loading false (set_error (Some message) s)) w)
  end.

(** *** fetchTeams *)

Definition fetchTeams (w : World) : World :=
  if teamsFetching (store w) then w
  else
    send GetTeams AwaitTeams
      (update (fun s =>
         set_teamsFetching true (set_error None (set_loading true s))) w).

Definition fetchTeams_settled (r : Response) (w : World) : option World :=
  match r with
  | Fulfilled (TeamsData data) =>
      Some (update (fun s =>
        set_teamsFetching false (set_loading false (set_teams data s))) w)
  | Fulfilled _ => None
  | Rejected message =>
      Some (update (fun s =>
        set_teamsFetching false
          (set_loading false (set_error (Some message) s))) w)
  end.

(** *** selectPlayer *)

Definition selectPlayer (playerId : option Z) (w : World) : World :=
  update (set_selectedPlayerId playerId) w.

(** *** predictInjury *)

(** [predictInjury(playerId, temperature = 72, humidity = 50)]: an argument
    that the caller leaves out is [None]. *)
Definition predictInjury (playerId : Z) (temperature humidity : option Q)
    (w : World) : World :=
  let temperature := default 72%Q temperature in
  let humidity := default 50%Q humidity in
  send (PostPredictInjury playerId temperature humidity)
       (AwaitPredict playerId temperature humidity) w.

(** [data.contributing_factors?.environmental]. *)
Definition environmental_of (data : PredictionResponse.t)
  : option Environmental.t :=
  PredictionResponse.contributing_factors data
    ≫= ContributingFactors.environmental.

(** The object [normalized] built from the response; [a ?? b] is
    [default b a]. *)
Definition normalize (data : PredictionResponse.t) (temperature humidity : Q)
  : InjuryPrediction.t :=
  {| InjuryPrediction.player_id := PredictionResponse.player_id data;
     InjuryPrediction.injury_risk := PredictionResponse.injury_risk data;
     InjuryPrediction.risk_level := PredictionResponse.risk_level data;
     InjuryPrediction.factors :=
       {| Factors.temperature :=
            default temperature
              (environmental_of data ≫= Environmental.temperature);
          Factors.humidity :=
            default humidity
              (environmental_of data ≫= Environmental.humidity);
          Factors.timestamp := PredictionResponse.timestamp data |} |}.

Definition predictInjury_settled (playerId : Z) (temperature humidity : Q)
    (r : Response) (w : World) : option World :=
  match r with
  | Fulfilled (PredictionData data) =>
      let normalized := normalize data temperature humidity in
      Some (update (fun state =>
        let newPredictions := JsMap.copy (injuryPredictions state) in
        let newPredictions :=
          JsMap.set playerId (Normalized normalized) newPredictions in
        set_injuryPredictions newPredictions state) w)
  | Fulfilled _ => None
  | Rejected message => Some (update (set_error (Some message)) w)
  end.

(** *** fetchPlayerInfo *)

(** [{ ...p, ...data }]: the properties of [p], then those of [data] over
    them. *)
Definition spread (p : Player.t) (data : PlayerInfo.t) : Player.t :=
  {| Player.id := default (Player.id p) (PlayerInfo.id data);
     Player.full_name :=
       default (Player.full_name p) (PlayerInfo.full_name data);
     Player.first_name :=
       default (Player.first_name p) (PlayerInfo.first_name data);
     Player.last_name :=
       default (Player.last_name p) (PlayerInfo.last_name data);
     Player.position :=
       default (Player.position p) (PlayerInfo.position data);
     Player.height_feet :=
       default (Player.height_feet p) (PlayerInfo.height_feet data);
     Player.height_inches :=
       default (Player.height_inches p) (PlayerInfo.height_inches data);
     Player.weight_pounds :=
       default (Player.weight_pounds p) (PlayerInfo.weight_pounds data);
     Player.team_abbreviation :=
       default (Player.team_abbreviation p)
         (PlayerInfo.team_abbreviation data);
     Player.team_full_name :=
       default (Player.team_full_name p) (PlayerInfo.team_full_name data);
     Player.team_id := default (Player.team_id p) (PlayerInfo.team_id data);
     Player.is_active :=
       default (Player.is_active p) (PlayerInfo.is_active data);
     Player.current_injury :=
       default (Player.current_injury p) (PlayerInfo.current_injury data);
     Player.season_averages :=
       default (Player.season_averages p) (PlayerInfo.season_averages data);
     Player.headshot_url :=
       default (Player.headshot_url p) (PlayerInfo.headshot_url data) |}.

Definition fetchPlayerInfo (playerId : Z) (w : World) : World :=
  if bool_decide (playerId ∈ fetchingInfo (store w)) then w
  else
    send (GetPlayerInfo playerId) (AwaitInfo playerId)
      (update (mutate_fetchingInfo (fun set => {[playerId]} ∪ set)) w).

Definition fetchPlayerInfo_settled (playerId : Z) (r : Response) (w : World)
  : option World :=
  match r with
  | Fulfilled (InfoData data) =>
      Some (update (fun state =>
        let updatedPlayers :=
          map (fun p =>
                 if Z.eqb (Player.id p) playerId then spread p data else p)
              (players state) in
        set_players updatedPlayers
          (mutate_fetchingInfo (fun set => set ∖ {[playerId]}) state)) w)
  | Fulfilled _ => None
  | Rejected message =>
      Some (update (fun s =>
        mutate_fetchingInfo (fun set => set ∖ {[playerId]})
          (set_error (Some message) s)) w)
  end.

(** *** getPlayerById and getTeamById *)

Definition getPlayerById (playerId : Z) (w : World)
  : option Player.t * World :=
  (List.find (fun p => Z.eqb (Player.id p) playerId) (players (store w)), w).

(** The call [fetchTeams()] is not awaited: its synchronous part runs
    inside the lookup, the rest when the request settles. *)
Definition getTeamById (teamId : Z) (w : World) : option Team.t * World :=
  let found :=
    List.find (fun t => Z.eqb (Team.id t) teamId) (teams (store w)) in
  let w' :=
    if negb (bool_decide (is_Some found)) && negb (teamsFetching (store w))
    then fetchTeams w
    else w in
  (found, w').

(** *** batchPredictAll *)

(** [Object.values(data)]. *)
Definition Object_values {A} (data : list (Z * A)) : list A := data.*2.

Definition batchPredictAll (w : World) : World :=
  let s := store w in
  if predictionsBatching s || Nat.eqb (length (players s)) 0 then w
  else
    let w1 := update (set_predictionsBatching true) w in
    let ids := map Player.id (players s) in
    send (PostPredictBulk ids) AwaitBulk w1.

(** The [try] and [catch] branches, each followed by the [finally]
    block. *)
Definition batchPredictAll_settled (r : Response) (w : World)
  : option World :=
  match r with
  | Fulfilled (BulkData data) =>
      Some (update (set_predictionsBatching false)
        (update (fun state =>
           let newMap := JsMap.copy (injuryPredictions state) in
           let newMap :=
             fold_left
               (fun m pred =>
                  JsMap.set (PredictionResponse.player_id pred)
                    (AsReceived pred) m)
               (Object_values data) newMap in
           set_injuryPredictions newMap state) w))
  | Fulfilled _ => None
  | Rejected message =>
      Some (update (set_predictionsBatching false)
        (update (set_error (Some message)) w))
  end.

(** ** Runs of the store *)

Inductive Call :=
  | CallFetchPlayers
  | CallFetchTeams
  | CallSelectPlayer (playerId : option Z)
  | CallPredictInjury (playerId : Z) (temperature humidity : option Q)
  | CallFetchPlayerInfo (playerId : Z)
  | CallGetPlayerById (playerId : Z)
  | CallGetTeamById (teamId : Z)
  | CallBatchPredictAll.

(** What can happen next: the application calls an operation, or the
    request of the [i]-th suspended operation settles. *)
Inductive Event :=
  | Invoke (c : Call)
  | Settle (i : nat) (r : Response).

Definition invoke (c : Call) (w : World) : World :=
  match c with
  | CallFetchPlayers => fetchPlayers w
  | CallFetchTeams => fetchTeams w
  | CallSelectPlayer playerId => selectPlayer playerId w
  | CallPredictInjury playerId temperature humidity =>
      predictInjury playerId temperature humidity w
  | CallFetchPlayerInfo playerId => fetchPlayerInfo playerId w
  | CallGetPlayerById playerId => (getPlayerById playerId w).2
  | CallGetTeamById teamId => (getTeamById teamId w).2
  | CallBatchPredictAll => batchPredictAll w
  end.

Definition resume (t : Task) (r : Response) (w : World) : option World :=
  match t with
  | AwaitSummary => fetchPlayers_summary_settled r w
  | AwaitPlayers => fetchPlayers_basic_settled r w
  | AwaitTeams => fetchTeams_settled r w
  | AwaitPredict playerId temperature humidity =>
      predictInjury_settled playerId temperature humidity r w
  | AwaitInfo playerId => fetchPlayerInfo_settled playerId r w
  | AwaitBulk => batchPredictAll_settled r w
  end.

(** The suspended operation [i] leaves the list and its continuation runs.
    The step is undefined when there is no such operation or when the body
    is not one that its endpoint sends.  In particular a body [null], on
    which the [try] blocks of [predictInjury] and [batchPredictAll] throw
    and end in their [catch], is not a body of this model. *)
Definition step (w : World) (e : Event) : option World :=
  match e with
  | Invoke c => Some (invoke c w)
  | Settle i r =>
      t ← inflight w !! i;
      resume t r (mkWorld (store w) (delete i (inflight w)) (requests w))
  end.

Fixpoint run (w : World) (evs : list Event) : option World :=
  match evs with
  | [] => Some w
  | e :: evs => w' ← step w e; run w' evs
  end.

(** The states that the store can be in. *)
Definition reachable (w : World) : Prop :=
  ∃ evs, run initialWorld evs = Some w.

(** ** Counting what is in flight and what was requested *)

Definition awaits_teams (t : Task) : bool :=
  match t with AwaitTeams => true | _ => false end.

Definition awaits_bulk (t : Task) : bool :=
  match t with AwaitBulk => true | _ => false end.

Definition is_teams_request (r : Request) : bool :=
  match r with GetTeams => true | _ => false end.

(** The number of suspended operations of a kind. *)
Definition in_flight (kind : Task → bool) (w : World) : nat :=
  length (List.filter kind (inflight w)).

(** The number of [/teams] requests sent so far. *)
Definition teams_requests (w : World) : nat :=
  length (List.filter is_teams_request (requests w)).

(** The event is the arrival of the [/teams] response. *)
Definition settles_teams (w : World) (e : Event) : bool :=
  match e with
  | Invoke _ => false
  | Settle i _ =>
      match inflight w !! i with
      | Some t => awaits_teams t
      | None => false
      end
  end.

(** No event of the run is the arrival of a [/teams] response. *)
Fixpoint teams_unanswered (w : World) (evs : list Event) : bool :=
  match evs with
  | [] => true
  | e :: evs =>
      negb (settles_teams w e) &&
      match step w e with
      | Some w' => teams_unanswered w' evs
      | None => true
      end
  end.

(** ** The invariant of the reachable states *)

(** The prediction map has no key twice; the [teamsFetching] flag is set
    exactly while one [/teams] request is in flight, and
    [predictionsBatching] exactly while one bulk request is. *)
Record invariant (w : World) : Prop := {
  inv_predictions : NoDup (injuryPredictions (store w)).*1;
  inv_teams :
    in_flight awaits_teams w = if teamsFetching (store w) then 1%nat else 0%nat;
  inv_bulk :
    in_flight awaits_bulk w =
    if predictionsBatching (store w) then 1%nat else 0%nat
}.

(** ** Auxiliary definitions for the statements *)

(** The world in which the request of [fetchPlayers] goes out. *)
Definition fetchPlayers_prepared (w : World) : World :=
  if Nat.eqb (length (players (store w))) 0
  then update (fun s => set_error None (set_loading true s)) w
  else w.

(** ** Sample data for the worked instances *)

Definition sample_player (id : Z) : Player.t :=
  {| Player.id := id; Player.full_name := "Test Player";
     Player.first_name := "Test"; Player.last_name := "Player";
     Player.position := "G"; Player.height_feet := None;
     Player.height_inches := None; Player.weight_pounds := Some 220%Q;
     Player.team_abbreviation := None; Player.team_full_name := None;
     Player.team_id := 14; Player.is_active := true;
     Player.current_injury := None; Player.season_averages := None;
     Player.headshot_url := None |}.

Definition sample_team (id : Z) : Team.t :=
  {| Team.id := id; Team.abbreviation := "LAL"; Team.city := "Los Angeles";
     Team.conference := "West"; Team.division := "Pacific";
     Team.full_name := "Los Angeles Lakers"; Team.name := "Lakers";
     Team.state := "California" |}.

Definition sample_prediction (player_id : Z)
    (factors : option ContributingFactors.t) : PredictionResponse.t :=
  {| PredictionResponse.player_id := player_id;
     PredictionResponse.injury_risk := 0.73%Q;
     PredictionResponse.risk_level := High;
     PredictionResponse.contributing_factors := factors;
     PredictionResponse.timestamp := "2025-01-01T00:00:00" |}.

(** A world with one player loaded and nothing in flight. *)
Definition one_player_world : World :=
  mkWorld (set_players [sample_player 1] initialState) [] [].

(** A world with one team loaded and nothing in flight. *)
Definition one_team_world : World :=
  mkWorld (set_teams [sample_team 14] initialState) [] [].

(** The world after [fetchPlayers] was called in the initial world and its
    summary request failed: the fallback request is in flight. *)
Definition fetchPlayers_summary_sample : World :=
  mkWorld (set_error None (set_loading true initialState))
    [AwaitPlayers] [GetPlayersSummary; GetPlayers].

(** The response [{height_feet: 6}]. *)
Definition height_only : PlayerInfo.t :=
  {| PlayerInfo.id := None; PlayerInfo.full_name := None;
     PlayerInfo.first_name := None; PlayerInfo.last_name := None;
     PlayerInfo.position := None; PlayerInfo.height_feet := Some (Some 6%Q);
     PlayerInfo.height_inches := None; PlayerInfo.weight_pounds := None;
     PlayerInfo.team_abbreviation := None; PlayerInfo.team_full_name := None;
     PlayerInfo.team_id := None; PlayerInfo.is_active := None;
     PlayerInfo.current_injury := None; PlayerInfo.season_averages := None;
     PlayerInfo.headshot_url := None |}.

(** A world in which the info request for player 1 is in flight. *)
Definition info_pending_world : World := fetchPlayerInfo 1 one_player_world.

(** A run after which one player is loaded and a single prediction and a
    bulk prediction are both in flight. *)
Definition busy_events : list Event :=
  [Invoke CallFetchPlayers;
   Settle 0 (Fulfilled (PlayersData [sample_player 1]));
   Invoke (CallPredictInjury 1 None None);
   Invoke CallBatchPredictAll].

Definition busy_world : World :=
  mkWorld
    (set_predictionsBatching true (set_players [sample_player 1] initialState))
    [AwaitPredict 1 72%Q 50%Q; AwaitBulk]
    [GetPlayersSummary; PostPredictInjury 1 72%Q 50%Q; PostPredictBulk [1]].

(** [new] is the value that a merge gives a field: the value [v] of the
    response when the response has the field, the old value otherwise. *)
Definition merged {A} (old : A) (resp : option A) (new : A) : Prop :=
  match resp with
  | Some v => new = v
  | None => new = old
  end.

(** ** More bookkeeping of the store *)

Definition awaits_info (playerId : Z) (t : Task) : bool :=
  match t with AwaitInfo id => Z.eqb id playerId | _ => false end.

(** A bulk request that carries no id. *)
Definition is_empty_bulk (r : Request) : bool :=
  match r with PostPredictBulk [] => true | _ => false end.

(** The body is the kind of body that the endpoint of the suspended
    operation sends. *)
Definition body_fits (t : Task) (data : Payload) : bool :=
  match t, data with
  | AwaitSummary, PlayersData _
  | AwaitPlayers, PlayersData _
  | AwaitTeams, TeamsData _
  | AwaitPredict _ _ _, PredictionData _
  | AwaitInfo _, InfoData _
  | AwaitBulk, BulkData _ => true
  | _, _ => false
  end.

(** Every entry that [batchPredictAll] stored sits under the [player_id]
    that the stored object carries. *)
Definition keyed_by_own_id (e : Z * Stored) : Prop :=
  match e.2 with
  | AsReceived p => PredictionResponse.player_id p = e.1
  | Normalized _ => True
  end.

(** ** The presentation code that reads the store *)

(** [pred.risk_level] and [pred.injury_risk] of a stored prediction, of
    either shape. *)
Definition stored_risk_level (v : Stored) : RiskLevel :=
  match v with
  | Normalized p => InjuryPrediction.risk_level p
  | AsReceived p => PredictionResponse.risk_level p
  end.

(** The string that a risk level is. *)
Definition RiskLevel_string (l : RiskLevel) : string :=
  match l with Low => "Low" | Medium => "Medium" | High => "High" end.

Definition RiskLevel_eqb (a b : RiskLevel) : bool :=
  match a, b with
  | Low, Low | Medium, Medium | High, High => true
  | _, _ => false
  end.

(** *** App.tsx, Dashboard *)

Module Dashboard.
(** The mount effect: [fetchPlayers(); fetchTeams();]. *)
Definition mount (w : World) : World := fetchTeams (fetchPlayers w).
End Dashboard.

(** *** components/StatsOverview.tsx *)

Module StatsOverview.
Record RiskStats := mkRiskStats {
  high : nat;
  medium : nat;
  low : nat;
  total : nat
}.

(** The body of the [forEach] callback. *)
Definition tally (riskStats : RiskStats) (pred : Stored) : RiskStats :=
  match stored_risk_level pred with
  | High =>
      mkRiskStats (S (high riskStats)) (medium riskStats) (low riskStats)
        (total riskStats)
  | Medium =>
      mkRiskStats (high riskStats) (S (medium riskStats)) (low riskStats)
        (total riskStats)
  | Low =>
      mkRiskStats (high riskStats) (medium riskStats) (S (low riskStats))
        (total riskStats)
  end.

(** [riskStats] after [predictions.forEach(...)]. *)
Definition riskStats (predictions : list (Z * Stored)) : RiskStats :=
  fold_left tally predictions.*2 (mkRiskStats 0 0 0 (length predictions)).

Definition activePlayers (players : list Player.t) : nat :=
  length (List.filter Player.is_active players).
End StatsOverview.

(** *** components/InjuryRiskChart.tsx *)

Module InjuryRiskChart.
(** One bar of the chart.  Its [risk] field, a number rounded through
    [toFixed], is a floating-point computation and is left out. *)
Record Bar := mkBar {
  name : string;
  level : string
}.

(** [s.charAt(0)]: the first character, or the empty string.  Strings
    here are strings of bytes: for a string that starts with a character
    outside ASCII this is its first byte, not its first code unit. *)
Definition charAt0 (s : string) : string :=
  match s with
  | EmptyString => EmptyString
  | String c _ => String c EmptyString
  end.

Definition bar (predictions : list (Z * Stored)) (player : Player.t) : Bar :=
  let prediction := JsMap.get (Player.id player) predictions in
  {| name :=
       (Player.first_name player ++ " " ++
        charAt0 (Player.last_name player) ++ ".")%string;
     level :=
       match prediction with
       | Some p => RiskLevel_string (stored_risk_level p)
       | None => "Unknown"
       end |}.

(** [players.slice(0, 10).map(...)]. *)
Definition data (players : list Player.t) (predictions : list (Z * Stored))
  : list Bar :=
  map (bar predictions) (take 10 players).

Definition getBarColor (level : string) : string :=
  if String.eqb level "High" then "#DC2626"
  else if String.eqb level "Medium" then "#F59E0B"
  else if String.eqb level "Low" then "#10B981"
  else "#6B7280".
End InjuryRiskChart.

(** *** components/WeatherPanel.tsx *)

Module WeatherPanel.
Record WeatherData := mkWeatherData {
  temperature : Q;
  humidity : Q;
  description : string;
  windSpeed : Q;
  city : string
}.

(** [a > b] on numbers. *)
Definition gt (a b : Q) : bool := negb (Qle_bool a b).

Definition getTemperatureColor (temp : Q) : string :=
  if gt temp 85 then "text-red-600"
  else if gt 50 temp then "text-blue-600"
  else "text-green-600".

(** The sentence on temperature in the impact box:
    [weather?.temperature && (weather.temperature > 85 ||
    weather.temperature < 50) ? ... : ...].  A number is truthy when it is
    not zero. *)
Definition temperatureImpact (weather : option WeatherData) : string :=
  match weather with
  | Some w =>
      if negb (Qeq_bool (temperature w) 0)
         && (gt (temperature w) 85 || gt 50 (temperature w))
      then " Extreme temperatures may increase injury risk. "
      else " Temperature is within optimal range. "
  | None => " Temperature is within optimal range. "
  end.
End WeatherPanel.

(** *** pages/Analytics.tsx *)

Module Analytics.
(** The effect that makes sure predictions exist:
    [if (players.length > 0 && injuryPredictions.size === 0)
       batchPredictAll()]. *)
Definition ensurePredictions (w : World) : World :=
  if Nat.ltb 0 (length (players (store w)))
     && Nat.eqb (length (injuryPredictions (store w))) 0
  then batchPredictAll w
  else w.

(** [Array.from(new Set(xs))]: the distinct elements of [xs] in the order
    of their first occurrence. *)
Definition Set_add (s : list string) (x : string) : list string :=
  if bool_decide (x ∈ s) then s else s ++ [x].

Definition Set_from (xs : list string) : list string :=
  fold_left Set_add xs [].

(** [.filter(Boolean)] on strings drops the empty string. *)
Definition uniquePositions (players : list Player.t) : list string :=
  List.filter (fun pos => negb (String.eqb pos ""))
    (Set_from (map Player.position players)).

(** A row of [positionRiskData].  Its [avgRisk] field, a floating-point
    average, is left out. *)
Record PositionRow := mkPositionRow {
  position : string;
  playerCount : nat
}.

Definition positionRow (players : list Player.t) (pos : string) : PositionRow :=
  let posPlayers :=
    List.filter (fun p => String.eqb (Player.position p) pos) players in
  {| position := pos; playerCount := length posPlayers |}.

Definition positionRiskData (players : list Player.t) : list PositionRow :=
  List.filter (fun d => Nat.ltb 0 (playerCount d))
    (map (positionRow players) (uniquePositions players)).

(** [Array.from(injuryPredictions.values())
      .filter(p => p.risk_level === level).length]. *)
Definition levelCount (level : RiskLevel) (predictions : list (Z * Stored))
  : nat :=
  length
    (List.filter (fun p => RiskLevel_eqb (stored_risk_level p) level)
       predictions.*2).

Record Slice := mkSlice {
  name : string;
  value : nat;
  color : string
}.

Definition riskDistribution (predictions : list (Z * Stored)) : list Slice :=
  [ {| name := "Low Risk"; value := levelCount Low predictions;
       color := "#10B981" |};
    {| name := "Medium Risk"; value := levelCount Medium predictions;
       color := "#F59E0B" |};
    {| name := "High Risk"; value := levelCount High predictions;
       color := "#DC2626" |} ].

Definition pieData (predictions : list (Z * Stored)) : list Slice :=
  List.filter (fun d => Nat.ltb 0 (value d)) (riskDistribution predictions).

(** [p.season_averages?.pts]. *)
Definition pts (p : Player.t) : option Q :=
  Player.season_averages p ≫= SeasonAverages.pts.

(** [p.season_averages?.pts ?? 0]. *)
Definition pts_or_0 (p : Player.t) : Q := default 0%Q (pts p).

(** [Array.prototype.sort] with the comparator
    [(a, b) => pts_or_0(b) - pts_or_0(a)].  The sort is stable, and a
    stable sort has one result only: the insertion sort below, which puts
    an element before the elements that followed it and do not have more
    points. *)
Fixpoint insert_desc (x : Player.t) (l : list Player.t) : list Player.t :=
  match l with
  | [] => [x]
  | y :: rest =>
      if Qle_bool (pts_or_0 y) (pts_or_0 x) then x :: y :: rest
      else y :: insert_desc x rest
  end.

Definition sort_desc (l : list Player.t) : list Player.t :=
  foldr insert_desc [] l.

(** The rows of the top scorers table:
    [players.filter(p => p.season_averages?.pts != null).sort(...)
       .slice(0, 10)]. *)
Definition topScorers (players : list Player.t) : list Player.t :=
  take 10
    (sort_desc
       (List.filter
          (fun p => match pts p with Some _ => true | None => false end)
          players)).
End Analytics.

(** The world after the players were loaded and [fetchPlayerInfo(1)] was
    called. *)
Definition enriching_world : World :=
  fetchPlayerInfo 1
    (mkWorld (set_players [sample_player 1] initialState) []
       [GetPlayersSummary]).

(** A run in which a bulk prediction is answered with the body
    [{ "5": { player_id: 1, ... } }], and the world after it. *)
Definition bulk_events : list Event :=
  [Invoke CallFetchPlayers;
   Settle 0 (Fulfilled (PlayersData [sample_player 1]));
   Invoke CallBatchPredictAll;
   Settle 0 (Fulfilled (BulkData [(5, sample_prediction 1 None)]))].

Definition bulk_done_world : World :=
  mkWorld
    (set_injuryPredictions [(1, AsReceived (sample_prediction 1 None))]
       (set_players [sample_player 1] initialState))
    [] [GetPlayersSummary; PostPredictBulk [1]].

(** Two single predictions for player 1 in flight, the first asked with
    the default readings and the second with 90 and 80. *)
Definition racing_world : World :=
  predictInjury 1 (Some 90%Q) (Some 80%Q)
    (predictInjury 1 None None initialWorld).

(** A world whose error slot holds the message of an earlier failure while
    a single prediction is in flight. *)
Definition failed_then_predicting_world : World :=
  predictInjury 1 None None
    (mkWorld (set_error (Some "Network Error") initialState) [] []).

(** ** Lemmas on [JsMap] *)

Section JsMapFacts.
Context {V : Type}.
Implicit Types (m acc : list (Z * V)) (k : Z) (v : V).

Lemma jsmap_keys_set k v m :
  (JsMap.set k v m).*1 = if bool_decide (k ∈ m.*1) then m.*1 else m.*1 ++ [k].
Proof.
  induction m as [|[k' v'] m IH].
  - cbn. case_bool_decide; [set_solver|done].
  - cbn [JsMap.set]. destruct (Z.eqb_spec k k') as [->|Hne]; cbn.
    + clear IH. case_bool_decide; [done|set_solver].
    + rewrite IH. clear IH. repeat case_bool_decide; try done; set_solver.
Qed.

Lemma jsmap_set_NoDup k v m : NoDup m.*1 → NoDup (JsMap.set k v m).*1.
Proof.
  intros Hnd. rewrite jsmap_keys_set. case_bool_decide as Hin; [done|].
  apply NoDup_app. split_and!; [done| |apply NoDup_singleton].
  intros x Hx Hx'. apply list_elem_of_singleton in Hx'. by subst.
Qed.

Lemma jsmap_get_set_eq k v m : JsMap.get k (JsMap.set k v m) = Some v.
Proof.
  induction m as [|[k' v'] m IH]; simpl.
  - by rewrite Z.eqb_refl.
  - destruct (Z.eqb_spec k k') as [->|Hne]; simpl.
    + by rewrite Z.eqb_refl.
    + by destruct (Z.eqb_spec k k').
Qed.

Lemma jsmap_get_set_ne k k' v m :
  k ≠ k' → JsMap.get k' (JsMap.set k v m) = JsMap.get k' m.
Proof.
  intros Hne. induction m as [|[k0 v0] m IH]; simpl.
  - by destruct (Z.eqb_spec k' k) as [->|].
  - destruct (Z.eqb_spec k k0) as [->|Hne0]; simpl.
    + destruct (Z.eqb_spec k' k0) as [->|]; [done|].
      by destruct (Z.eqb_spec k' k0).
    + by rewrite IH.
Qed.

Lemma jsmap_set_fresh k v m : k ∉ m.*1 → JsMap.set k v m = m ++ [(k, v)].
Proof.
  induction m as [|[k' v'] m IH]; simpl; [done|].
  intros Hnin. destruct (Z.eqb_spec k k') as [->|]; [set_solver|].
  rewrite IH; [done|set_solver].
Qed.

Lemma jsmap_fold_set_fresh m acc :
  NoDup (acc ++ m).*1 →
  fold_left (fun a e => JsMap.set e.1 e.2 a) m acc = acc ++ m.
Proof.
  revert acc. induction m as [|[k v] m IH]; intros acc Hnd; simpl.
  - by rewrite app_nil_r.
  - rewrite jsmap_set_fresh.
    + rewrite IH; rewrite <- app_assoc; done.
    + rewrite fmap_app in Hnd. apply NoDup_app in Hnd as (_ & Hdisj & _).
      intros Hin. apply (Hdisj k Hin). simpl. set_solver.
Qed.

(** Copying a map without duplicate keys gives the same entries. *)
Lemma jsmap_copy_id m : NoDup m.*1 → JsMap.copy m = m.
Proof. intros Hnd. unfold JsMap.copy. by rewrite jsmap_fold_set_fresh. Qed.

Lemma jsmap_fold_set_NoDup {B} (key : B → Z) (val : B → V) (l : list B) acc :
  NoDup acc.*1 →
  NoDup (fold_left (fun a b => JsMap.set (key b) (val b) a) l acc).*1.
Proof.
  revert acc. induction l as [|e l IH]; intros acc Hnd; simpl; [done|].
  apply IH. by apply jsmap_set_NoDup.
Qed.

(** A copy never has duplicate keys, whatever it is a copy of. *)
Lemma jsmap_copy_NoDup m : NoDup (JsMap.copy m).*1.
Proof. apply (jsmap_fold_set_NoDup fst snd). constructor. Qed.

Lemma jsmap_entries_for_NoDup k m :
  NoDup m.*1 → (JsMap.entries_for k m ≤ 1)%nat.
Proof.
  unfold JsMap.entries_for.
  induction m as [|[k' v'] m IH]; simpl; [lia|].
  intros Hnd. apply NoDup_cons in Hnd as [Hnin Hnd].
  destruct (Z.eqb_spec k' k) as [->|]; simpl; [|by apply IH].
  assert (List.filter (fun e => Z.eqb e.1 k) m = []) as ->; [|simpl; lia].
  clear IH Hnd. induction m as [|[k0 v0] m IH]; simpl; [done|].
  destruct (Z.eqb_spec k0 k) as [->|]; simpl; [set_solver|].
  apply IH. set_solver.
Qed.

Lemma jsmap_entries_for_get k v m :
  NoDup m.*1 → JsMap.get k m = Some v → JsMap.entries_for k m = 1%nat.
Proof.
  intros Hnd Hget. pose proof (jsmap_entries_for_NoDup k m Hnd) as Hle.
  enough (JsMap.entries_for k m ≠ 0%nat) by lia.
  unfold JsMap.entries_for. clear Hle Hnd.
  induction m as [|[k' v'] m IH]; simpl in *; [done|].
  rewrite (Z.eqb_sym k' k). destruct (Z.eqb_spec k k'); simpl; [done|].
  by apply IH.
Qed.
End JsMapFacts.

Lemma find_app {A} (f : A → bool) (l1 l2 : list A) :
  List.find f (l1 ++ l2) =
  match List.find f l1 with
  | Some x => Some x
  | None => List.find f l2
  end.
Proof.
  induction l1 as [|x l1 IH]; simpl; [done|]. by destruct (f x).
Qed.

(** After a sequence of [set] calls the value under a key is the one of the
    last call for that key, or the earlier value if there was no call. *)
Lemma jsmap_get_fold_set {V B} (key : B → Z) (val : B → V)
    (l : list B) (m : list (Z * V)) (k : Z) :
  JsMap.get k (fold_left (fun a b => JsMap.set (key b) (val b) a) l m) =
  match List.find (fun b => Z.eqb (key b) k) (rev l) with
  | Some b => Some (val b)
  | None => JsMap.get k m
  end.
Proof.
  revert m. induction l as [|b l IH]; intros m; simpl; [done|].
  rewrite IH, find_app. destruct (List.find _ (rev l)); [done|]. simpl.
  destruct (Z.eqb_spec (key b) k) as [<-|Hne].
  - apply jsmap_get_set_eq.
  - by apply jsmap_get_set_ne.
Qed.

(** ** Auxiliary facts on lists of suspended operations *)

Section ListFacts.
Context {A : Type}.
Implicit Types (l : list A) (x : A) (f : A → bool).

Lemma lookup_snoc l x : (l ++ [x]) !! length l = Some x.
Proof. by rewrite list_lookup_middle. Qed.

Lemma delete_snoc l x : delete (length l) (l ++ [x]) = l.
Proof.
  induction l as [|y l IH]; simpl; [done|]. by rewrite IH.
Qed.

Lemma filter_length_snoc f l x :
  length (List.filter f (l ++ [x])) =
  (length (List.filter f l) + (if f x then 1 else 0))%nat.
Proof.
  rewrite List.filter_app, length_app. simpl. by destruct (f x).
Qed.

Lemma filter_length_delete f l i x :
  l !! i = Some x →
  length (List.filter f l) =
  (length (List.filter f (delete i l)) + (if f x then 1 else 0))%nat.
Proof.
  revert i. induction l as [|y l IH]; intros [|i] Hi; simplify_eq/=.
  - destruct (f x); simpl; lia.
  - specialize (IH _ Hi). destruct (f y); simpl; lia.
Qed.
End ListFacts.

(** ** The invariant holds in every reachable state *)

Lemma invariant_initial : invariant initialWorld.
Proof. split; simpl; [constructor|done|done]. Qed.

(** Splits an [invariant] goal and normalises the counts of a world that
    has sent requests. *)
Ltac invariant_goals :=
  split; unfold in_flight in *; simpl;
  rewrite ?filter_length_snoc; simpl; rewrite ?Nat.add_0_r in *.

Lemma invariant_invoke c w : invariant w → invariant (invoke c w).
Proof.
  intros Hinv. pose proof Hinv as [Hmap Hteams Hbulk].
  destruct c; simpl.
  - unfold fetchPlayers. destruct (Nat.eqb _ 0); invariant_goals; done.
  - unfold fetchTeams. destruct (teamsFetching (store w)) eqn:Hf; [done|].
    invariant_goals; [done|lia|done].
  - done.
  - invariant_goals; done.
  - unfold fetchPlayerInfo. case_bool_decide; [done|].
    invariant_goals; done.
  - done.
  - destruct (negb _ && negb _) eqn:Hg; [|done].
    apply andb_true_iff in Hg as [_ Hf%negb_true_iff].
    unfold fetchTeams. rewrite Hf. rewrite Hf in Hteams.
    invariant_goals; [done|lia|done].
  - unfold batchPredictAll.
    destruct (predictionsBatching (store w)) eqn:Hf; simpl; [done|].
    destruct (Nat.eqb _ 0); [done|].
    invariant_goals; [done|done|lia].
Qed.

Lemma invariant_step w e w' : invariant w → step w e = Some w' → invariant w'.
Proof.
  destruct e as [c|i r]; simpl.
  { intros Hinv [= <-]. by apply invariant_invoke. }
  intros [Hmap Hteams Hbulk] Hstep.
  destruct (inflight w !! i) as [t|] eqn:Hi; simplify_eq/=.
  unfold in_flight in *.
  rewrite (filter_length_delete awaits_teams _ _ _ Hi) in Hteams.
  rewrite (filter_length_delete awaits_bulk _ _ _ Hi) in Hbulk.
  destruct t, r as [[]|message]; simplify_eq/=; invariant_goals; try done.
  - destruct (teamsFetching (store w)); lia.
  - destruct (teamsFetching (store w)); lia.
  - apply jsmap_set_NoDup, jsmap_copy_NoDup.
  - apply jsmap_fold_set_NoDup, jsmap_copy_NoDup.
  - destruct (predictionsBatching (store w)); lia.
  - destruct (predictionsBatching (store w)); lia.
Qed.

Lemma invariant_run evs w w' : invariant w → run w evs = Some w' → invariant w'.
Proof.
  revert w. induction evs as [|e evs IH]; intros w Hinv Hrun; simplify_eq/=.
  - done.
  - destruct (step w e) as [w1|] eqn:Hstep; simplify_eq/=.
    eapply IH; [|done]. by eapply invariant_step.
Qed.

Lemma invariant_reachable w : reachable w → invariant w.
Proof. intros [evs Hrun]. eapply invariant_run; [apply invariant_initial|done]. Qed.

Lemma run_app w evs1 evs2 :
  run w (evs1 ++ evs2) = w1 ← run w evs1; run w1 evs2.
Proof.
  revert w. induction evs1 as [|e evs1 IH]; intros w; simpl; [done|].
  destruct (step w e); simpl; [apply IH|done].
Qed.

Lemma reachable_run w evs w' : reachable w → run w evs = Some w' → reachable w'.
Proof.
  intros [evs0 H0] Hrun. exists (evs0 ++ evs). by rewrite run_app, H0.
Qed.

Lemma reachable_step w e w' : reachable w → step w e = Some w' → reachable w'.
Proof.
  intros Hw Hstep. apply (reachable_run w [e]); [done|]. simpl. by rewrite Hstep.
Qed.

(** ** Stepping lemmas *)

(** Settling the operation that was suspended last. *)
Lemma step_settle_last s l t q r :
  step (mkWorld s (l ++ [t]) q) (Settle (length l) r) =
  resume t r (mkWorld s l q).
Proof. simpl. by rewrite lookup_snoc, delete_snoc. Qed.

Lemma step_settle_sent q t w r :
  step (send q t w) (Settle (length (inflight w)) r) =
  resume t r (mkWorld (store w) (inflight w) (requests w ++ [q])).
Proof. apply step_settle_last. Qed.

Lemma step_settle w i t r :
  inflight w !! i = Some t →
  step w (Settle i r) =
  resume t r (mkWorld (store w) (delete i (inflight w)) (requests w)).
Proof. intros Hi. simpl. by rewrite Hi. Qed.

(** While the [teamsFetching] flag is set, nothing but the arrival of the
    [/teams] response changes it, and no [/teams] request goes out. *)
Lemma teams_pending_step w e w' :
  teamsFetching (store w) = true →
  settles_teams w e = false →
  step w e = Some w' →
  teamsFetching (store w') = true ∧ teams_requests w' = teams_requests w.
Proof.
  intros Hflag Hns Hstep. unfold teams_requests.
  destruct e as [c|i r]; simpl in *.
  - injection Hstep as <-. destruct c; simpl.
    + unfold fetchPlayers. destruct (Nat.eqb _ 0); simpl;
        rewrite filter_length_snoc; simpl; split; (done || lia).
    + unfold fetchTeams. by rewrite Hflag.
    + done.
    + rewrite filter_length_snoc; simpl; split; (done || lia).
    + unfold fetchPlayerInfo. case_bool_decide; simpl; [done|].
      rewrite filter_length_snoc; simpl; split; (done || lia).
    + done.
    + rewrite Hflag, andb_false_r. done.
    + unfold batchPredictAll. destruct (_ || _); simpl; [done|].
      rewrite filter_length_snoc; simpl; split; (done || lia).
  - destruct (inflight w !! i) as [t|] eqn:Hi; simplify_eq/=.
    destruct t, r as [[]|message]; simplify_eq/=;
      rewrite ?filter_length_snoc; simpl; split; (done || lia).
Qed.

Lemma teams_pending_run evs w w' :
  teamsFetching (store w) = true →
  teams_unanswered w evs = true →
  run w evs = Some w' →
  teamsFetching (store w') = true ∧ teams_requests w' = teams_requests w.
Proof.
  revert w. induction evs as [|e evs IH]; intros w Hflag Hun Hrun;
    simplify_eq/=; [done|].
  destruct (step w e) as [w1|] eqn:Hstep; simplify_eq/=.
  apply andb_true_iff in Hun as [Hns%negb_true_iff Hun].
  destruct (teams_pending_step w e w1 Hflag Hns Hstep) as [Hflag1 Hreq1].
  destruct (IH w1 Hflag1 Hun Hrun) as [? ?]. split; [done|congruence].
Qed.

(** What a call of [fetchTeams] does when no fetch is in flight. *)
Lemma fetchTeams_flag_cases w :
  teamsFetching (store w) = false →
  teamsFetching (store (fetchTeams w)) = true ∧
  requests (fetchTeams w) = requests w ++ [GetTeams] ∧
  teams_requests (fetchTeams w) = S (teams_requests w).
Proof.
  intros Hidle. unfold fetchTeams, teams_requests. rewrite Hidle. simpl.
  rewrite filter_length_snoc. simpl. split_and!; (done || lia).
Qed.

Lemma fetchPlayers_prepared_frame w :
  inflight (fetchPlayers_prepared w) = inflight w ∧
  requests (fetchPlayers_prepared w) = requests w ∧
  players (store (fetchPlayers_prepared w)) = players (store w) ∧
  error (store (fetchPlayers_prepared w)) =
    if Nat.eqb (length (players (store w))) 0 then None else error (store w).
Proof. unfold fetchPlayers_prepared. by destruct (Nat.eqb _ 0). Qed.

(** The first two steps of a [fetchPlayers] whose summary request fails:
    the fallback request is in flight and the store is as the call left
    it. *)
Lemma fetchPlayers_summary_fails w m1 :
  run w [Invoke CallFetchPlayers; Settle (length (inflight w)) (Rejected m1)] =
  Some (mkWorld (store (fetchPlayers_prepared w))
          (inflight w ++ [AwaitPlayers])
          (requests w ++ [GetPlayersSummary; GetPlayers])).
Proof.
  destruct (fetchPlayers_prepared_frame w) as (Hin & Hreq & _).
  cbn [run step invoke mbind option_bind].
  change (fetchPlayers w)
    with (send GetPlayersSummary AwaitSummary (fetchPlayers_prepared w)).
  unfold send. cbn [inflight store requests].
  rewrite Hin, lookup_snoc, delete_snoc. cbn.
  unfold send. cbn [inflight store requests].
  by rewrite Hreq, <- app_assoc.
Qed.

(** ** The claims *)

(** C1: in every state that the store can reach, by any sequence of calls
    and responses, the prediction map has at most one entry per player id.
    A successful single prediction for [playerId] makes its normalized
    result the one entry of [playerId] and leaves the other ids as they
    were; a successful bulk prediction leaves under each id the last
    response object carrying that id, or the earlier entry when no object
    carries it.  So a later write replaces the earlier one. *)
Theorem prediction_map_one_entry_per_player (w : World) :
  reachable w →
  (∀ id, (JsMap.entries_for id (injuryPredictions (store w)) ≤ 1)%nat) ∧
  (∀ i playerId t h data,
     inflight w !! i = Some (AwaitPredict playerId t h) →
     ∃ w',
       step w (Settle i (Fulfilled (PredictionData data))) = Some w' ∧
       JsMap.get playerId (injuryPredictions (store w')) =
         Some (Normalized (normalize data t h)) ∧
       JsMap.entries_for playerId (injuryPredictions (store w')) = 1%nat ∧
       (∀ id, id ≠ playerId →
          JsMap.get id (injuryPredictions (store w')) =
          JsMap.get id (injuryPredictions (store w)))) ∧
  (∀ i data,
     inflight w !! i = Some AwaitBulk →
     ∃ w',
       step w (Settle i (Fulfilled (BulkData data))) = Some w' ∧
       ∀ id,
         JsMap.get id (injuryPredictions (store w')) =
           match
             List.find
               (fun pred => Z.eqb (PredictionResponse.player_id pred) id)
               (rev (Object_values data))
           with
           | Some pred => Some (AsReceived pred)
           | None => JsMap.get id (injuryPredictions (store w))
           end ∧
         (JsMap.entries_for id (injuryPredictions (store w')) ≤ 1)%nat).
Proof.
  intros Hreach. pose proof (invariant_reachable w Hreach) as [Hnd _ _].
  split_and!.
  - intros id. by apply jsmap_entries_for_NoDup.
  - intros i playerId t h data Hi. rewrite (step_settle _ _ _ _ Hi). cbn.
    eexists; split; [reflexivity|]. cbn. rewrite (jsmap_copy_id _ Hnd).
    split_and!.
    + apply jsmap_get_set_eq.
    + eapply jsmap_entries_for_get; [|apply jsmap_get_set_eq].
      by apply jsmap_set_NoDup.
    + intros id Hne. by apply jsmap_get_set_ne.
  - intros i data Hi.
    destruct (step w (Settle i (Fulfilled (BulkData data)))) as [w'|] eqn:Hstep.
    2:{ rewrite (step_settle _ _ _ _ Hi) in Hstep. discriminate Hstep. }
    pose proof (invariant_step _ _ _ (invariant_reachable w Hreach) Hstep)
      as [Hnd' _ _].
    exists w'. split; [done|]. intros id. split.
    + rewrite (step_settle _ _ _ _ Hi) in Hstep. injection Hstep as <-. cbn.
      rewrite (jsmap_copy_id _ Hnd).
      apply (jsmap_get_fold_set PredictionResponse.player_id AsReceived).
    + by apply jsmap_entries_for_NoDup.
Qed.

Lemma prediction_map_one_entry_per_player_witness :
  reachable busy_world ∧
  inflight busy_world !! 0%nat = Some (AwaitPredict 1 72%Q 50%Q) ∧
  (JsMap.entries_for 1 (injuryPredictions (store busy_world)) ≤ 1)%nat ∧
  ∃ w',
    step busy_world
      (Settle 0 (Fulfilled (PredictionData (sample_prediction 1 None)))) =
      Some w' ∧
    JsMap.entries_for 1 (injuryPredictions (store w')) = 1%nat.
Proof.
  assert (reachable busy_world) as Hreach by (exists busy_events; reflexivity).
  assert (inflight busy_world !! 0%nat = Some (AwaitPredict 1 72%Q 50%Q))
    as Hi by reflexivity.
  split; [exact Hreach|]. split; [exact Hi|].
  destruct (prediction_map_one_entry_per_player busy_world Hreach)
    as (Hone & Hsingle & _).
  split; [apply Hone|].
  destruct (Hsingle 0%nat 1 72%Q 50%Q (sample_prediction 1 None) Hi)
    as (w' & Hstep & _ & Hcount & _).
  exists w'. split; [exact Hstep|exact Hcount].
Defined.

(** C2: in every reachable state at most one [/teams] request is in
    flight, and a call of [fetchTeams] made while one is in flight (the
    [teamsFetching] guard is set) returns at once: it sends nothing and
    changes nothing.  After a call of [fetchTeams] that starts a fetch, as
    long as the response has not arrived every further call is such a
    no-op, however many other calls and responses come in between; the
    first call and a second, overlapping one have sent exactly one [/teams]
    request in total. *)
Theorem fetchTeams_never_overlaps (w : World) :
  reachable w →
  (in_flight awaits_teams w ≤ 1)%nat ∧
  ((0 < in_flight awaits_teams w)%nat ∨ teamsFetching (store w) = true →
   fetchTeams w = w ∧ step w (Invoke CallFetchTeams) = Some w) ∧
  (teamsFetching (store w) = false →
   teams_requests (fetchTeams w) = S (teams_requests w) ∧
   in_flight awaits_teams (fetchTeams w) = 1%nat ∧
   ∀ evs w1,
     run (fetchTeams w) evs = Some w1 →
     teams_unanswered (fetchTeams w) evs = true →
     in_flight awaits_teams w1 = 1%nat ∧
     fetchTeams w1 = w1 ∧
     teams_requests (fetchTeams w1) = S (teams_requests w)).
Proof.
  intros Hreach. pose proof (invariant_reachable w Hreach) as [_ Hteams _].
  split_and!.
  - destruct (teamsFetching (store w)); lia.
  - intros Hbusy.
    assert (teamsFetching (store w) = true) as Hflag.
    { destruct Hbusy as [Hpos|]; [|done].
      destruct (teamsFetching (store w)); [done|lia]. }
    assert (fetchTeams w = w) as Hnoop by (unfold fetchTeams; by rewrite Hflag).
    split; [done|]. simpl. by rewrite Hnoop.
  - intros Hidle.
    assert (reachable (fetchTeams w)) as Hreach1.
    { by apply (reachable_step w (Invoke CallFetchTeams)). }
    assert (teamsFetching (store (fetchTeams w)) = true) as Hflag1.
    { unfold fetchTeams. by rewrite Hidle. }
    assert (teams_requests (fetchTeams w) = S (teams_requests w)) as Hreq1.
    { unfold fetchTeams, teams_requests. rewrite Hidle. simpl.
      rewrite filter_length_snoc. simpl. lia. }
    split; [done|]. split.
    { pose proof (invariant_reachable _ Hreach1) as [_ Hteams1 _].
      by rewrite Hflag1 in Hteams1. }
    intros evs w1 Hrun Hun.
    destruct (teams_pending_run _ _ _ Hflag1 Hun Hrun) as [Hflag2 Hreq2].
    pose proof (invariant_reachable _ (reachable_run _ _ _ Hreach1 Hrun))
      as [_ Hteams2 _].
    rewrite Hflag2 in Hteams2.
    assert (fetchTeams w1 = w1) as Hnoop by (unfold fetchTeams; by rewrite Hflag2).
    split; [done|]. split; [done|]. rewrite Hnoop. congruence.
Qed.

Lemma fetchTeams_never_overlaps_witness :
  reachable initialWorld ∧
  teamsFetching (store initialWorld) = false ∧
  teams_requests (fetchTeams initialWorld) = 1%nat ∧
  teams_requests
    (fetchTeams (invoke CallFetchPlayers (fetchTeams initialWorld))) = 1%nat.
Proof.
  assert (reachable initialWorld) as Hreach by (exists []; reflexivity).
  assert (teamsFetching (store initialWorld) = false) as Hidle by reflexivity.
  split; [exact Hreach|]. split; [exact Hidle|].
  destruct (fetchTeams_never_overlaps initialWorld Hreach) as (_ & _ & Hstart).
  destruct (Hstart Hidle) as (Hone & _ & Hlater).
  split; [exact Hone|].
  destruct (Hlater [Invoke CallFetchPlayers]
              (invoke CallFetchPlayers (fetchTeams initialWorld)))
    as (_ & _ & Htotal); [reflexivity|reflexivity|exact Htotal].
Defined.

(** C3: a call of [batchPredictAll] made while a bulk prediction is in
    flight (its request is pending, or equally the [predictionsBatching]
    flag is set) or while the player collection is empty sends no request
    and leaves the whole world as it was: store, suspended operations and
    request log. *)
Theorem batchPredictAll_guarded_is_noop (w : World) :
  (reachable w ∧ (0 < in_flight awaits_bulk w)%nat)
  ∨ predictionsBatching (store w) = true
  ∨ players (store w) = [] →
  batchPredictAll w = w ∧
  step w (Invoke CallBatchPredictAll) = Some w ∧
  requests (batchPredictAll w) = requests w ∧
  store (batchPredictAll w) = store w.
Proof.
  intros Hguard.
  assert (batchPredictAll w = w) as Hnoop.
  { unfold batchPredictAll.
    destruct Hguard as [[Hreach Hpending]|[Hflag|Hempty]].
    - apply invariant_reachable in Hreach as [_ _ Hbulk].
      destruct (predictionsBatching (store w)); [done|lia].
    - by rewrite Hflag.
    - rewrite Hempty. simpl. by rewrite orb_true_r. }
  simpl. by rewrite Hnoop.
Qed.

Lemma batchPredictAll_guarded_is_noop_witness :
  (players (store initialWorld) = []) ∧
  batchPredictAll initialWorld = initialWorld.
Proof.
  split; [reflexivity|].
  apply (batchPredictAll_guarded_is_noop initialWorld).
  right; right; reflexivity.
Defined.

(** C4: a call of [getTeamById] with an id that the team collection does
    not have returns "not found" and has the effect of a call of
    [fetchTeams]: when no team load is in flight one [/teams] request goes
    out, and when one is in flight already nothing more is sent.  Either
    way exactly one load is in flight after the miss.  From then on, as
    long as the response has not arrived, every further lookup, whatever
    its id and however many other calls and responses come in between,
    changes nothing and sends nothing: no [/teams] request is added to the
    one of the episode. *)
Theorem getTeamById_loads_once_per_miss (w : World) (teamId : Z) :
  reachable w →
  List.find (fun t => Z.eqb (Team.id t) teamId) (teams (store w)) = None →
  let w1 := (getTeamById teamId w).2 in
  (getTeamById teamId w).1 = None ∧
  w1 = fetchTeams w ∧
  teams_requests w1 =
    (teams_requests w + if teamsFetching (store w) then 0 else 1)%nat ∧
  in_flight awaits_teams w1 = 1%nat ∧
  ∀ evs w2,
    run w1 evs = Some w2 →
    teams_unanswered w1 evs = true →
    teams_requests w2 = teams_requests w1 ∧
    in_flight awaits_teams w2 = 1%nat ∧
    ∀ id, (getTeamById id w2).2 = w2.
Proof.
  intros Hreach Hmiss w1.
  assert (w1 = fetchTeams w) as Hw1.
  { subst w1. unfold getTeamById. rewrite Hmiss. cbn [fst snd].
    rewrite bool_decide_eq_false_2 by (intros [? ?]; done). cbn [negb andb].
    unfold fetchTeams. by destruct (teamsFetching (store w)). }
  assert (reachable w1) as Hreach1.
  { rewrite Hw1. by apply (reachable_step w (Invoke CallFetchTeams)). }
  assert (teamsFetching (store w1) = true) as Hflag1.
  { rewrite Hw1. unfold fetchTeams.
    by destruct (teamsFetching (store w)) eqn:Hflag. }
  split_and!.
  - unfold getTeamById. by rewrite Hmiss.
  - done.
  - rewrite Hw1. destruct (teamsFetching (store w)) eqn:Hflag.
    + unfold fetchTeams. rewrite Hflag. lia.
    + destruct (fetchTeams_flag_cases w Hflag) as (_ & _ & ->). lia.
  - pose proof (invariant_reachable _ Hreach1) as [_ Hteams1 _].
    by rewrite Hflag1 in Hteams1.
  - intros evs w2 Hrun Hun.
    destruct (teams_pending_run _ _ _ Hflag1 Hun Hrun) as [Hflag2 Hreq2].
    pose proof (invariant_reachable _ (reachable_run _ _ _ Hreach1 Hrun))
      as [_ Hteams2 _].
    rewrite Hflag2 in Hteams2. split_and!; try done.
    intros id. unfold getTeamById. cbn [snd].
    by rewrite Hflag2, andb_false_r.
Qed.

Lemma getTeamById_loads_once_per_miss_witness :
  reachable initialWorld ∧
  List.find (fun t => Z.eqb (Team.id t) 14) (teams (store initialWorld)) = None ∧
  (getTeamById 14 initialWorld).1 = None ∧
  teams_requests (getTeamById 14 initialWorld).2 = 1%nat ∧
  (getTeamById 3 (invoke (CallGetTeamById 14) (getTeamById 14 initialWorld).2)).2
  = invoke (CallGetTeamById 14) (getTeamById 14 initialWorld).2.
Proof.
  assert (reachable initialWorld) as Hreach by (exists []; reflexivity).
  assert (List.find (fun t => Z.eqb (Team.id t) 14)
            (teams (store initialWorld)) = None) as Hmiss by reflexivity.
  split; [exact Hreach|]. split; [exact Hmiss|].
  destruct (getTeamById_loads_once_per_miss initialWorld 14 Hreach Hmiss)
    as (Hnone & _ & Hone & _ & Hlater).
  split; [exact Hnone|]. split; [exact Hone|].
  destruct (Hlater [Invoke (CallGetTeamById 14)]
              (invoke (CallGetTeamById 14) (getTeamById 14 initialWorld).2))
    as (_ & _ & Hlookup); [reflexivity|reflexivity|].
  exact (Hlookup 3).
Defined.

(** C5: when the [/player/{id}/info] request of [fetchPlayerInfo(playerId)]
    succeeds, every record of the collection with that id is replaced by
    its merge with the response and every other record stays as it is, at
    the same position.  In the merge a field that the response has takes
    the value from the response and a field that the response lacks keeps
    its value; a response [{height_feet: 6}] keeps [weight_pounds].  The
    id is marked in [fetchingInfo] by the call and the mark is gone after
    the request settles, on success and on failure. *)
Theorem fetchPlayerInfo_merges_response
    (w : World) (i : nat) (playerId : Z) (data : PlayerInfo.t) :
  inflight w !! i = Some (AwaitInfo playerId) →
  (∃ w',
     step w (Settle i (Fulfilled (InfoData data))) = Some w' ∧
     length (players (store w')) = length (players (store w)) ∧
     (∀ j p, players (store w) !! j = Some p → Player.id p = playerId →
             players (store w') !! j = Some (spread p data)) ∧
     (∀ j p, players (store w) !! j = Some p → Player.id p ≠ playerId →
             players (store w') !! j = Some p) ∧
     (playerId ∉ fetchingInfo (store w'))) ∧
  (∀ message, ∃ w',
     step w (Settle i (Rejected message)) = Some w' ∧
     (playerId ∉ fetchingInfo (store w')) ∧
     players (store w') = players (store w) ∧
     error (store w') = Some message) ∧
  (∀ w0, playerId ∈ fetchingInfo (store (fetchPlayerInfo playerId w0))) ∧
  (∀ p,
     merged (Player.id p) (PlayerInfo.id data) (Player.id (spread p data)) ∧
     merged (Player.full_name p) (PlayerInfo.full_name data)
       (Player.full_name (spread p data)) ∧
     merged (Player.first_name p) (PlayerInfo.first_name data)
       (Player.first_name (spread p data)) ∧
     merged (Player.last_name p) (PlayerInfo.last_name data)
       (Player.last_name (spread p data)) ∧
     merged (Player.position p) (PlayerInfo.position data)
       (Player.position (spread p data)) ∧
     merged (Player.height_feet p) (PlayerInfo.height_feet data)
       (Player.height_feet (spread p data)) ∧
     merged (Player.height_inches p) (PlayerInfo.height_inches data)
       (Player.height_inches (spread p data)) ∧
     merged (Player.weight_pounds p) (PlayerInfo.weight_pounds data)
       (Player.weight_pounds (spread p data)) ∧
     merged (Player.team_abbreviation p) (PlayerInfo.team_abbreviation data)
       (Player.team_abbreviation (spread p data)) ∧
     merged (Player.team_full_name p) (PlayerInfo.team_full_name data)
       (Player.team_full_name (spread p data)) ∧
     merged (Player.team_id p) (PlayerInfo.team_id data)
       (Player.team_id (spread p data)) ∧
     merged (Player.is_active p) (PlayerInfo.is_active data)
       (Player.is_active (spread p data)) ∧
     merged (Player.current_injury p) (PlayerInfo.current_injury data)
       (Player.current_injury (spread p data)) ∧
     merged (Player.season_averages p) (PlayerInfo.season_averages data)
       (Player.season_averages (spread p data)) ∧
     merged (Player.headshot_url p) (PlayerInfo.headshot_url data)
       (Player.headshot_url (spread p data))) ∧
  (∀ p,
     Player.height_feet (spread p height_only) = Some 6%Q ∧
     Player.weight_pounds (spread p height_only) = Player.weight_pounds p).
Proof.
  intros Hi. split_and!.
  - rewrite (step_settle _ _ _ _ Hi). eexists; split; [reflexivity|].
    cbn. split_and!.
    + by rewrite length_map.
    + intros j p Hj Hid. change (map ?f ?l) with (f <$> l).
      rewrite list_lookup_fmap, Hj. simpl.
      by destruct (Z.eqb_spec (Player.id p) playerId).
    + intros j p Hj Hid. change (map ?f ?l) with (f <$> l).
      rewrite list_lookup_fmap, Hj. simpl.
      by destruct (Z.eqb_spec (Player.id p) playerId).
    + set_solver.
  - intros message. rewrite (step_settle _ _ _ _ Hi).
    eexists; split; [reflexivity|]. cbn. split_and!; [set_solver|done|done].
  - intros w0. unfold fetchPlayerInfo. case_bool_decide; [done|].
    cbn. set_solver.
  - intros p. unfold merged, spread. destruct data; simpl.
    repeat split; by case_match.
  - done.
Qed.

Lemma fetchPlayerInfo_merges_response_witness :
  inflight info_pending_world !! 0%nat = Some (AwaitInfo 1) ∧
  ∃ w',
    step info_pending_world (Settle 0 (Fulfilled (InfoData height_only))) =
      Some w' ∧
    players (store w') !! 0%nat = Some (spread (sample_player 1) height_only) ∧
    (1 ∉ fetchingInfo (store w')).
Proof.
  assert (inflight info_pending_world !! 0%nat = Some (AwaitInfo 1)) as Hi
    by reflexivity.
  split; [exact Hi|].
  destruct (fetchPlayerInfo_merges_response info_pending_world 0 1 height_only Hi)
    as ((w' & Hstep & _ & Hsame & _ & Hmark) & _).
  exists w'. split; [exact Hstep|]. split; [|exact Hmark].
  apply (Hsame 0%nat (sample_player 1)); reflexivity.
Defined.

(** C6: a successful [predictInjury(playerId, temperature = 72,
    humidity = 50)] sends the request with the two readings of the call
    (72 and 50 where the caller gave none) and stores under [playerId] the
    normalized prediction: its temperature and humidity are the ones of
    [contributing_factors.environmental] of the response where the server
    supplies them and the readings of the call where it does not, its other
    fields are those of the response.  The entry replaces whatever was
    stored for [playerId]: afterwards the map has exactly one entry for it.
    The success step behaves the same in any world. *)
Theorem predictInjury_stores_normalized
    (w : World) (playerId : Z) (temperature humidity : option Q)
    (data : PredictionResponse.t) :
  let t := default 72%Q temperature in
  let h := default 50%Q humidity in
  let stored_as (w' : World) (t h : Q) :=
    ∃ p,
      JsMap.get playerId (injuryPredictions (store w')) = Some (Normalized p) ∧
      JsMap.entries_for playerId (injuryPredictions (store w')) = 1%nat ∧
      (∀ cf env x,
         PredictionResponse.contributing_factors data = Some cf →
         ContributingFactors.environmental cf = Some env →
         Environmental.temperature env = Some x →
         Factors.temperature (InjuryPrediction.factors p) = x) ∧
      ((∀ cf env,
          PredictionResponse.contributing_factors data = Some cf →
          ContributingFactors.environmental cf = Some env →
          Environmental.temperature env = None) →
       Factors.temperature (InjuryPrediction.factors p) = t) ∧
      (∀ cf env x,
         PredictionResponse.contributing_factors data = Some cf →
         ContributingFactors.environmental cf = Some env →
         Environmental.humidity env = Some x →
         Factors.humidity (InjuryPrediction.factors p) = x) ∧
      ((∀ cf env,
          PredictionResponse.contributing_factors data = Some cf →
          ContributingFactors.environmental cf = Some env →
          Environmental.humidity env = None) →
       Factors.humidity (InjuryPrediction.factors p) = h) ∧
      Factors.timestamp (InjuryPrediction.factors p) =
        PredictionResponse.timestamp data ∧
      InjuryPrediction.player_id p = PredictionResponse.player_id data ∧
      InjuryPrediction.injury_risk p = PredictionResponse.injury_risk data ∧
      InjuryPrediction.risk_level p = PredictionResponse.risk_level data in
  (∃ w',
     run w [Invoke (CallPredictInjury playerId temperature humidity);
            Settle (length (inflight w)) (Fulfilled (PredictionData data))] =
       Some w' ∧
     requests w' = requests w ++ [PostPredictInjury playerId t h] ∧
     stored_as w' t h) ∧
  (∀ w0 i t0 h0, inflight w0 !! i = Some (AwaitPredict playerId t0 h0) →
     ∃ w1,
       step w0 (Settle i (Fulfilled (PredictionData data))) = Some w1 ∧
       stored_as w1 t0 h0).
Proof.
  intros t h stored_as.
  assert (∀ (m : list (Z * Stored)) t h w',
            injuryPredictions (store w') =
              JsMap.set playerId (Normalized (normalize data t h))
                (JsMap.copy m) →
            stored_as w' t h) as Hstored.
  { intros m t' h' w' Hmap. exists (normalize data t' h').
    rewrite Hmap.
    assert (JsMap.get playerId
              (JsMap.set playerId (Normalized (normalize data t' h'))
                 (JsMap.copy m)) = Some (Normalized (normalize data t' h')))
      as Hget by apply jsmap_get_set_eq.
    split; [exact Hget|]. split.
    { eapply jsmap_entries_for_get; [|exact Hget].
      apply jsmap_set_NoDup, jsmap_copy_NoDup. }
    unfold normalize, environmental_of; simpl.
    destruct (PredictionResponse.contributing_factors data) as [[[env|]]|];
      simpl; split_and!; try done.
    - intros cf env' x [= <-] [= <-] ->. done.
    - intros Hnone. by rewrite (Hnone _ _ eq_refl eq_refl).
    - intros cf env' x [= <-] [= <-] ->. done.
    - intros Hnone. by rewrite (Hnone _ _ eq_refl eq_refl).
    - intros cf env' x [= <-] [=].
    - intros cf env' x [= <-] [=]. }
  split.
  - cbn [run step invoke mbind option_bind]. unfold predictInjury.
    fold t h. unfold send. cbn [inflight store requests].
    rewrite lookup_snoc, delete_snoc. cbn.
    eexists; split; [reflexivity|]. split; [done|].
    by apply (Hstored (injuryPredictions (store w))).
  - intros w0 i t0 h0 Hi. rewrite (step_settle _ _ _ _ Hi). cbn.
    eexists; split; [reflexivity|].
    by apply (Hstored (injuryPredictions (store w0))).
Qed.

Lemma predictInjury_stores_normalized_witness :
  inflight (predictInjury 1 None None initialWorld) !! 0%nat =
    Some (AwaitPredict 1 72%Q 50%Q) ∧
  ∃ w1 p,
    step (predictInjury 1 None None initialWorld)
      (Settle 0 (Fulfilled (PredictionData (sample_prediction 1 None)))) =
      Some w1 ∧
    JsMap.get 1 (injuryPredictions (store w1)) = Some (Normalized p) ∧
    Factors.temperature (InjuryPrediction.factors p) = 72%Q ∧
    Factors.humidity (InjuryPrediction.factors p) = 50%Q.
Proof.
  assert (inflight (predictInjury 1 None None initialWorld) !! 0%nat =
            Some (AwaitPredict 1 72%Q 50%Q)) as Hi by reflexivity.
  split; [exact Hi|].
  destruct (predictInjury_stores_normalized initialWorld 1 None None
              (sample_prediction 1 None)) as [_ Hany].
  destruct (Hany _ 0%nat 72%Q 50%Q Hi)
    as (w1 & Hstep & p & Hget & _ & _ & Htemp & _ & Hhum & _).
  exists w1, p. split; [exact Hstep|]. split; [exact Hget|].
  split; [apply Htemp|apply Hhum]; intros cf env H; discriminate H.
Defined.

(** C7: when [/players/summary] and then the fallback [/players] both fail,
    [fetchPlayers] leaves the player collection as it was and stores the
    message of the second failure in the error slot, as it is: the slot is
    set, and its message is non-empty whenever the message of that failure
    is.  Exactly the two requests were sent and nothing of the operation
    remains in flight, so there is no further retry.  The two failure steps
    behave the same in any world, with other operations interleaved. *)
Theorem fetchPlayers_both_endpoints_fail (w : World) (m1 m2 : string) :
  let n := length (inflight w) in
  (∃ w',
     run w [Invoke CallFetchPlayers;
            Settle n (Rejected m1); Settle n (Rejected m2)] = Some w' ∧
     players (store w') = players (store w) ∧
     error (store w') = Some m2 ∧
     error (store w') ≠ None ∧
     (m2 ≠ "" → error (store w') ≠ Some "") ∧
     requests w' = requests w ++ [GetPlayersSummary; GetPlayers] ∧
     inflight w' = inflight w) ∧
  (∀ w0 i, inflight w0 !! i = Some AwaitSummary →
     ∃ w1, step w0 (Settle i (Rejected m1)) = Some w1 ∧
           store w1 = store w0 ∧
           requests w1 = requests w0 ++ [GetPlayers] ∧
           inflight w1 = delete i (inflight w0) ++ [AwaitPlayers]) ∧
  (∀ w0 i, inflight w0 !! i = Some AwaitPlayers →
     ∃ w1, step w0 (Settle i (Rejected m2)) = Some w1 ∧
           players (store w1) = players (store w0) ∧
           error (store w1) = Some m2 ∧
           requests w1 = requests w0 ∧
           inflight w1 = delete i (inflight w0)).
Proof.
  intros n. subst n. split_and!.
  - destruct (fetchPlayers_prepared_frame w) as (_ & _ & Hplayers & _).
    change [Invoke CallFetchPlayers; Settle (length (inflight w)) (Rejected m1);
            Settle (length (inflight w)) (Rejected m2)]
      with ([Invoke CallFetchPlayers; Settle (length (inflight w)) (Rejected m1)]
            ++ [Settle (length (inflight w)) (Rejected m2)]).
    rewrite run_app, fetchPlayers_summary_fails.
    cbn [mbind option_bind run]. rewrite step_settle_last.
    eexists; split; [reflexivity|]. simpl.
    split_and!; try done. congruence.
  - intros w0 i Hi. rewrite (step_settle _ _ _ _ Hi).
    eexists; split; [reflexivity|done].
  - intros w0 i Hi. rewrite (step_settle _ _ _ _ Hi).
    eexists; split; [reflexivity|done].
Qed.

Lemma fetchPlayers_both_endpoints_fail_witness :
  inflight fetchPlayers_summary_sample !! 0%nat = Some AwaitPlayers ∧
  ∃ w1,
    step fetchPlayers_summary_sample
      (Settle 0 (Rejected "Request failed with status code 500")) = Some w1 ∧
    players (store w1) = [] ∧
    error (store w1) = Some "Request failed with status code 500".
Proof.
  assert (inflight fetchPlayers_summary_sample !! 0%nat = Some AwaitPlayers)
    as Hi by reflexivity.
  split; [exact Hi|].
  destruct (fetchPlayers_both_endpoints_fail initialWorld "Network Error"
              "Request failed with status code 500") as (_ & _ & Hany).
  destruct (Hany fetchPlayers_summary_sample 0%nat Hi)
    as (w1 & Hstep & Hplayers & Herr & _).
  exists w1. split; [exact Hstep|]. split; [exact Hplayers|exact Herr].
Defined.

(** C7, the claim as it was stated: the error slot does not always hold a
    non-empty message.  When the second failure carries the empty message,
    the slot holds the empty message. *)
Lemma fetchPlayers_stores_empty_message :
  ∃ w',
    run initialWorld
      [Invoke CallFetchPlayers;
       Settle 0 (Rejected "Network Error");
       Settle 0 (Rejected "")] = Some w' ∧
    players (store w') = [] ∧
    error (store w') = Some "" ∧
    ¬ ∃ m, error (store w') = Some m ∧ m ≠ "".
Proof.
  eexists. split; [reflexivity|]. cbn. split; [done|]. split; [done|].
  intros (m & [= <-] & Hne). by apply Hne.
Qed.

(** C8: when [/players/summary] fails and the fallback [/players] answers
    with the list [L], the player collection becomes [L] and no error is
    recorded: the error slot is what the call itself left (cleared when the
    collection was empty at the call, untouched otherwise), and the message
    of the first failure is stored nowhere.  The success step of the
    fallback behaves the same in any world. *)
Theorem fetchPlayers_fallback_succeeds
    (w : World) (m1 : string) (L : list Player.t) :
  let n := length (inflight w) in
  (∃ w',
     run w [Invoke CallFetchPlayers; Settle n (Rejected m1);
            Settle n (Fulfilled (PlayersData L))] = Some w' ∧
     players (store w') = L ∧
     error (store w') =
       (if Nat.eqb (length (players (store w))) 0 then None
        else error (store w)) ∧
     loading (store w') = false ∧
     requests w' = requests w ++ [GetPlayersSummary; GetPlayers] ∧
     inflight w' = inflight w) ∧
  (∃ w',
     run initialWorld
       [Invoke CallFetchPlayers; Settle 0 (Rejected m1);
        Settle 0 (Fulfilled (PlayersData L))] = Some w' ∧
     players (store w') = L ∧
     error (store w') = None) ∧
  (∀ w0 i, inflight w0 !! i = Some AwaitPlayers →
     ∃ w1, step w0 (Settle i (Fulfilled (PlayersData L))) = Some w1 ∧
           players (store w1) = L ∧
           error (store w1) = error (store w0) ∧
           requests w1 = requests w0 ∧
           inflight w1 = delete i (inflight w0)).
Proof.
  intros n. subst n.
  assert (∀ w : World, ∃ w',
     run w [Invoke CallFetchPlayers; Settle (length (inflight w)) (Rejected m1);
            Settle (length (inflight w)) (Fulfilled (PlayersData L))] = Some w' ∧
     players (store w') = L ∧
     error (store w') =
       (if Nat.eqb (length (players (store w))) 0 then None
        else error (store w)) ∧
     loading (store w') = false ∧
     requests w' = requests w ++ [GetPlayersSummary; GetPlayers] ∧
     inflight w' = inflight w) as Hrun.
  { clear w. intros w.
    destruct (fetchPlayers_prepared_frame w) as (_ & _ & _ & Herr).
    change [Invoke CallFetchPlayers; Settle (length (inflight w)) (Rejected m1);
            Settle (length (inflight w)) (Fulfilled (PlayersData L))]
      with ([Invoke CallFetchPlayers; Settle (length (inflight w)) (Rejected m1)]
            ++ [Settle (length (inflight w)) (Fulfilled (PlayersData L))]).
    rewrite run_app, fetchPlayers_summary_fails.
    cbn [mbind option_bind run]. rewrite step_settle_last.
    eexists; split; [reflexivity|]. simpl. by split_and!. }
  split_and!.
  - apply Hrun.
  - destruct (Hrun initialWorld) as (w' & Hr & Hp & He & _).
    exists w'. by split_and!.
  - intros w0 i Hi. rewrite (step_settle _ _ _ _ Hi).
    eexists; split; [reflexivity|done].
Qed.

Lemma fetchPlayers_fallback_succeeds_witness :
  inflight (fetchPlayers_summary_sample) !! 0%nat = Some AwaitPlayers ∧
  ∃ w1,
    step fetchPlayers_summary_sample
      (Settle 0 (Fulfilled (PlayersData [sample_player 5]))) = Some w1 ∧
    players (store w1) = [sample_player 5] ∧
    error (store w1) = None.
Proof.
  assert (inflight fetchPlayers_summary_sample !! 0%nat = Some AwaitPlayers)
    as Hi by reflexivity.
  split; [exact Hi|].
  destruct (fetchPlayers_fallback_succeeds initialWorld "Network Error"
              [sample_player 5]) as (_ & _ & Hany).
  destruct (Hany fetchPlayers_summary_sample 0%nat Hi)
    as (w1 & Hstep & Hplayers & Herr & _).
  exists w1. split; [exact Hstep|]. split; [exact Hplayers|exact Herr].
Defined.

(** C9: when [batchPredictAll] passes its guard it sets
    [predictionsBatching] and sends one bulk request; when that request
    settles the flag is cleared, whether the request succeeded or failed,
    and on failure the error slot holds the message and the prediction map
    is the one from before.  The same holds for a bulk request settling in
    any world, whatever happened in between. *)
Theorem batchPredictAll_clears_flag (w : World) :
  predictionsBatching (store w) = false →
  players (store w) ≠ [] →
  let w1 := batchPredictAll w in
  let n := length (inflight w) in
  predictionsBatching (store w1) = true ∧
  inflight w1 = inflight w ++ [AwaitBulk] ∧
  requests w1 =
    requests w ++ [PostPredictBulk (map Player.id (players (store w)))] ∧
  (∀ data, ∃ w2,
     step w1 (Settle n (Fulfilled (BulkData data))) = Some w2 ∧
     predictionsBatching (store w2) = false) ∧
  (∀ message, ∃ w2,
     step w1 (Settle n (Rejected message)) = Some w2 ∧
     predictionsBatching (store w2) = false ∧
     error (store w2) = Some message ∧
     injuryPredictions (store w2) = injuryPredictions (store w)) ∧
  (∀ w' i, inflight w' !! i = Some AwaitBulk →
     (∀ data, ∃ w2,
        step w' (Settle i (Fulfilled (BulkData data))) = Some w2 ∧
        predictionsBatching (store w2) = false) ∧
     (∀ message, ∃ w2,
        step w' (Settle i (Rejected message)) = Some w2 ∧
        predictionsBatching (store w2) = false ∧
        error (store w2) = Some message ∧
        injuryPredictions (store w2) = injuryPredictions (store w'))).
Proof.
  intros Hflag Hplayers w1 n. subst w1 n.
  assert (batchPredictAll w =
          send (PostPredictBulk (map Player.id (players (store w)))) AwaitBulk
            (update (set_predictionsBatching true) w)) as ->.
  { unfold batchPredictAll. rewrite Hflag.
    by destruct (players (store w)). }
  split_and!; try done.
  - intros data.
    change (length (inflight w)) with
      (length (inflight (update (set_predictionsBatching true) w))).
    rewrite step_settle_sent. eexists; split; [reflexivity|done].
  - intros message.
    change (length (inflight w)) with
      (length (inflight (update (set_predictionsBatching true) w))).
    rewrite step_settle_sent. eexists; split; [reflexivity|done].
  - intros w' i Hi. split.
    + intros data. rewrite (step_settle _ _ _ _ Hi).
      eexists; split; [reflexivity|done].
    + intros message. rewrite (step_settle _ _ _ _ Hi).
      eexists; split; [reflexivity|done].
Qed.

Lemma batchPredictAll_clears_flag_witness :
  predictionsBatching (store one_player_world) = false ∧
  players (store one_player_world) ≠ [] ∧
  predictionsBatching (store (batchPredictAll one_player_world)) = true ∧
  ∃ w2,
    step (batchPredictAll one_player_world)
      (Settle 0 (Rejected "Network Error")) = Some w2 ∧
    predictionsBatching (store w2) = false ∧
    error (store w2) = Some "Network Error" ∧
    injuryPredictions (store w2) = [].
Proof.
  assert (predictionsBatching (store one_player_world) = false) as Hflag
    by reflexivity.
  assert (players (store one_player_world) ≠ []) as Hplayers by (simpl; discriminate).
  split; [exact Hflag|]. split; [exact Hplayers|].
  destruct (batchPredictAll_clears_flag one_player_world Hflag Hplayers)
    as (Hset & _ & _ & _ & Hfail & _).
  split; [exact Hset|]. exact (Hfail "Network Error").
Defined.

(** C10: when the [/teams] request of [fetchTeams] fails, the team
    collection is the one from before; the step writes the error slot, the
    loading flag and the [teamsFetching] flag and nothing else, and sends
    no request. *)
Theorem fetchTeams_failure_keeps_teams (w : World) (i : nat) (message : string) :
  inflight w !! i = Some AwaitTeams →
  ∃ w',
    step w (Settle i (Rejected message)) = Some w' ∧
    teams (store w') = teams (store w) ∧
    error (store w') = Some message ∧
    loading (store w') = false ∧
    teamsFetching (store w') = false ∧
    players (store w') = players (store w) ∧
    selectedPlayerId (store w') = selectedPlayerId (store w) ∧
    injuryPredictions (store w') = injuryPredictions (store w) ∧
    fetchingInfo (store w') = fetchingInfo (store w) ∧
    predictionsBatching (store w') = predictionsBatching (store w) ∧
    requests w' = requests w ∧
    inflight w' = delete i (inflight w).
Proof.
  intros Hi. rewrite (step_settle _ _ _ _ Hi). simpl.
  eexists; split; [reflexivity|]. by repeat split.
Qed.

Lemma fetchTeams_failure_keeps_teams_witness :
  inflight (fetchTeams one_team_world) !! 0%nat = Some AwaitTeams ∧
  ∃ w',
    step (fetchTeams one_team_world) (Settle 0 (Rejected "timeout")) = Some w' ∧
    teams (store w') = [sample_team 14] ∧
    error (store w') = Some "timeout".
Proof.
  assert (inflight (fetchTeams one_team_world) !! 0%nat = Some AwaitTeams)
    as Hi by reflexivity.
  split; [exact Hi|].
  destruct (fetchTeams_failure_keeps_teams _ 0 "timeout" Hi)
    as (w' & Hstep & Hteams & Herr & _).
  exists w'. split; [exact Hstep|]. split; [exact Hteams|exact Herr].
Defined.

(** ** Further properties of the store *)

(** X1: a [fetchPlayers] whose summary request succeeds with the list [L]
    makes [L] the player collection and clears the loading flag after one
    request only: the fallback endpoint is not asked.  The loading flag is
    raised (and the error slot cleared) at the call only when the
    collection is empty; a refresh of a loaded collection leaves the store
    as it is until the response arrives.  Teams and predictions are not
    touched. *)
Theorem fetchPlayers_summary_succeeds (w : World) (L : list Player.t) :
  store (fetchPlayers w) =
    (if Nat.eqb (length (players (store w))) 0
     then set_error None (set_loading true (store w))
     else store w) ∧
  ∃ w',
    run w [Invoke CallFetchPlayers;
           Settle (length (inflight w)) (Fulfilled (PlayersData L))] = Some w' ∧
    players (store w') = L ∧
    loading (store w') = false ∧
    error (store w') =
      (if Nat.eqb (length (players (store w))) 0 then None
       else error (store w)) ∧
    requests w' = requests w ++ [GetPlayersSummary] ∧
    inflight w' = inflight w ∧
    teams (store w') = teams (store w) ∧
    injuryPredictions (store w') = injuryPredictions (store w).
Proof.
  split.
  { unfold fetchPlayers. by destruct (Nat.eqb _ 0). }
  cbn [run step invoke mbind option_bind].
  change (fetchPlayers w)
    with (send GetPlayersSummary AwaitSummary (fetchPlayers_prepared w)).
  destruct (fetchPlayers_prepared_frame w) as (Hin & Hreq & _ & _).
  unfold send. cbn [inflight store requests].
  rewrite Hin, lookup_snoc, delete_snoc. cbn.
  eexists; split; [reflexivity|]. cbn. rewrite Hreq.
  unfold fetchPlayers_prepared. by destruct (Nat.eqb _ 0).
Qed.

(** X2: a lookup that finds the team returns a team of the collection with
    the requested id and leaves the world alone: it sends nothing, whether
    or not a load is in flight.  The lookup finds nothing exactly when no
    team of the collection has the id. *)
Theorem getTeamById_hit_is_pure (w : World) (teamId : Z) :
  (∀ t, (getTeamById teamId w).1 = Some t →
        Team.id t = teamId ∧ t ∈ teams (store w) ∧
        (getTeamById teamId w).2 = w) ∧
  ((getTeamById teamId w).1 = None ↔
   ∀ t, t ∈ teams (store w) → Team.id t ≠ teamId).
Proof.
  unfold getTeamById. cbn [fst snd]. split.
  - intros t Hfind. rewrite Hfind.
    apply List.find_some in Hfind as [Hin Hid].
    split; [by apply Z.eqb_eq|]. split; [by apply list_elem_of_In|].
    by rewrite bool_decide_eq_true_2.
  - split.
    + intros Hnone t Hin Hid.
      pose proof (List.find_none _ _ Hnone t) as Hf.
      rewrite <- list_elem_of_In in Hf. specialize (Hf Hin).
      apply Z.eqb_neq in Hf. done.
    + intros Hall.
      destruct (List.find _ _) as [t|] eqn:Hfind; [|done].
      apply List.find_some in Hfind as [Hin Hid].
      apply list_elem_of_In in Hin. apply Z.eqb_eq in Hid.
      by destruct (Hall t Hin).
Qed.

(** X3: when a [fetchTeams] started from an idle store succeeds with the
    list [L], the team collection is [L], the flags are down, the error slot
    is empty and one request was sent.  A lookup of an id that [L] has then
    answers from the cache without a request; a lookup of an id that [L]
    does not have starts the next [/teams] request. *)
Theorem fetchTeams_then_lookup (w : World) (L : list Team.t) (teamId : Z) :
  teamsFetching (store w) = false →
  ∃ w',
    run w [Invoke CallFetchTeams;
           Settle (length (inflight w)) (Fulfilled (TeamsData L))] = Some w' ∧
    teams (store w') = L ∧
    teamsFetching (store w') = false ∧
    loading (store w') = false ∧
    error (store w') = None ∧
    players (store w') = players (store w) ∧
    requests w' = requests w ++ [GetTeams] ∧
    inflight w' = inflight w ∧
    ((∃ t, t ∈ L ∧ Team.id t = teamId) →
     is_Some (getTeamById teamId w').1 ∧ (getTeamById teamId w').2 = w') ∧
    ((∀ t, t ∈ L → Team.id t ≠ teamId) →
     (getTeamById teamId w').1 = None ∧
     requests (getTeamById teamId w').2 = requests w ++ [GetTeams; GetTeams]).
Proof.
  intros Hidle. cbn [run step invoke mbind option_bind].
  assert (fetchTeams w =
          send GetTeams AwaitTeams
            (update (fun s =>
               set_teamsFetching true (set_error None (set_loading true s))) w))
    as -> by (unfold fetchTeams; by rewrite Hidle).
  unfold send. cbn [inflight store requests update].
  rewrite lookup_snoc, delete_snoc. cbn.
  eexists; split; [reflexivity|].
  unfold getTeamById. cbn -[List.find]. split_and!; try done.
  - intros (t & Hin & Hid).
    destruct (List.find (λ t0, Team.id t0 =? teamId) L) as [t'|] eqn:Hfind.
    + split; [by eexists|]. by rewrite bool_decide_eq_true_2.
    + pose proof (List.find_none _ _ Hfind t) as Hf.
      rewrite <- list_elem_of_In in Hf. specialize (Hf Hin).
      apply Z.eqb_neq in Hf. done.
  - intros Hall.
    destruct (List.find (λ t0, Team.id t0 =? teamId) L) as [t'|] eqn:Hfind.
    + apply List.find_some in Hfind as [Hin Hid].
      apply list_elem_of_In in Hin. apply Z.eqb_eq in Hid.
      by destruct (Hall t' Hin).
    + rewrite bool_decide_eq_false_2 by (intros [? ?]; done).
      cbn. split; [done|]. unfold fetchTeams. cbn.
      by rewrite <- app_assoc.
Qed.

Lemma fetchTeams_then_lookup_witness :
  teamsFetching (store initialWorld) = false ∧
  ∃ w',
    run initialWorld
      [Invoke CallFetchTeams; Settle 0 (Fulfilled (TeamsData [sample_team 14]))] =
      Some w' ∧
    is_Some (getTeamById 14 w').1 ∧
    (getTeamById 14 w').2 = w'.
Proof.
  assert (teamsFetching (store initialWorld) = false) as Hidle by reflexivity.
  split; [exact Hidle|].
  destruct (fetchTeams_then_lookup initialWorld [sample_team 14] 14 Hidle)
    as (w' & Hrun & _ & _ & _ & _ & _ & _ & _ & Hhit & _).
  exists w'. split; [exact Hrun|]. apply Hhit.
  exists (sample_team 14). split; [by apply list_elem_of_singleton|reflexivity].
Defined.

(** X4: [getPlayerById] never changes the store and never sends anything.
    What it returns is a player of the collection with the requested id,
    the first one in the collection, and it returns nothing exactly when no
    player has the id. *)
Theorem getPlayerById_is_pure (w : World) (playerId : Z) :
  (getPlayerById playerId w).2 = w ∧
  invoke (CallGetPlayerById playerId) w = w ∧
  (∀ p, (getPlayerById playerId w).1 = Some p →
        Player.id p = playerId ∧
        ∃ i, players (store w) !! i = Some p ∧
             ∀ j q, (j < i)%nat → players (store w) !! j = Some q →
                    Player.id q ≠ playerId) ∧
  ((getPlayerById playerId w).1 = None ↔
   ∀ p, p ∈ players (store w) → Player.id p ≠ playerId).
Proof.
  unfold getPlayerById. cbn [fst snd invoke]. split_and!; try done.
  - generalize (players (store w)). intros l p.
    induction l as [|q l IH]; cbn; [done|].
    destruct (Z.eqb_spec (Player.id q) playerId) as [Hq|Hq].
    + intros [= <-]. split; [done|]. exists 0%nat. split; [done|]. lia.
    + intros Hfind. destruct (IH Hfind) as (Hid & i & Hi & Hfirst).
      split; [done|]. exists (S i). split; [done|].
      intros [|j] q' Hj Hq'; simplify_eq/=; [done|].
      apply (Hfirst j q'); [lia|done].
  - split.
    + intros Hnone p Hin Hid.
      pose proof (List.find_none _ _ Hnone p) as Hf.
      rewrite <- list_elem_of_In in Hf. specialize (Hf Hin).
      apply Z.eqb_neq in Hf. done.
    + intros Hall.
      destruct (List.find _ _) as [p|] eqn:Hfind; [|done].
      apply List.find_some in Hfind as [Hin Hid].
      apply list_elem_of_In in Hin. apply Z.eqb_eq in Hid.
      by destruct (Hall p Hin).
Qed.

(** Induction over the reachable states. *)
Lemma reachable_ind (P : World → Prop) :
  P initialWorld →
  (∀ w e w', reachable w → P w → step w e = Some w' → P w') →
  ∀ w, reachable w → P w.
Proof.
  intros Hinit Hstep w [evs Hrun]. revert w Hrun.
  induction evs as [|e evs IH] using rev_ind; intros w Hrun.
  - by injection Hrun as <-.
  - rewrite run_app in Hrun.
    destruct (run initialWorld evs) as [w1|] eqn:Hrun1; [|done].
    cbn in Hrun. destruct (step w1 e) as [w2|] eqn:Hs; simplify_eq/=.
    eapply Hstep; [by exists evs|by apply IH|done].
Qed.

(** X5: in every reachable state an id is in [fetchingInfo] exactly while
    one info request for it is in flight, so there is never more than one
    per player.  A call of [fetchPlayerInfo] for an id whose request is in
    flight changes nothing and sends nothing; a call for an id without one
    sends one request. *)
Theorem fetchPlayerInfo_one_request_per_player (w : World) (playerId : Z) :
  reachable w →
  in_flight (awaits_info playerId) w =
    (if bool_decide (playerId ∈ fetchingInfo (store w)) then 1 else 0)%nat ∧
  ((0 < in_flight (awaits_info playerId) w)%nat →
   fetchPlayerInfo playerId w = w) ∧
  (in_flight (awaits_info playerId) w = 0%nat →
   requests (fetchPlayerInfo playerId w) =
     requests w ++ [GetPlayerInfo playerId] ∧
   in_flight (awaits_info playerId) (fetchPlayerInfo playerId w) = 1%nat).
Proof.
  intros Hreach.
  assert (∀ id, in_flight (awaits_info id) w =
            (if bool_decide (id ∈ fetchingInfo (store w)) then 1 else 0)%nat)
    as Hinv.
  { revert w Hreach. apply (reachable_ind (λ w, ∀ id, _ = _)); [done|].
    intros w e w' _ IH Hstep id. specialize (IH id).
    unfold in_flight in *. destruct e as [c|i r].
    - injection Hstep as <-. destruct c; cbn; try done.
      + unfold fetchPlayers. destruct (Nat.eqb _ 0); cbn;
          rewrite filter_length_snoc; cbn; lia.
      + unfold fetchTeams. destruct (teamsFetching (store w)); cbn; [done|].
        rewrite filter_length_snoc; cbn; lia.
      + rewrite filter_length_snoc; cbn; lia.
      + unfold fetchPlayerInfo.
        destruct (decide (playerId0 ∈ fetchingInfo (store w))) as [Hin|Hin].
        { by rewrite (bool_decide_eq_true_2 _ Hin). }
        rewrite (bool_decide_eq_false_2 _ Hin). cbn.
        rewrite filter_length_snoc. cbn.
        destruct (Z.eqb_spec playerId0 id) as [->|Hne].
        * rewrite bool_decide_eq_false_2 in IH by done.
          rewrite bool_decide_eq_true_2 by set_solver. lia.
        * rewrite IH. repeat case_bool_decide; set_solver by lia.
      + destruct (negb _ && negb _); [|done]. unfold fetchTeams.
        destruct (teamsFetching (store w)); cbn; [done|].
        rewrite filter_length_snoc; cbn; lia.
      + unfold batchPredictAll. destruct (_ || _); cbn; [done|].
        rewrite filter_length_snoc; cbn; lia.
    - cbn in Hstep. destruct (inflight w !! i) as [t|] eqn:Hi; [|done].
      rewrite (filter_length_delete (awaits_info id) _ _ _ Hi) in IH.
      destruct t, r as [[]|message]; simplify_eq/=;
        rewrite ?filter_length_snoc; cbn; rewrite ?Nat.add_0_r in *;
        try done.
      all: destruct (Z.eqb_spec playerId0 id) as [Heq|Hne].
      all: try (subst playerId0; rewrite bool_decide_eq_false_2 by set_solver;
                destruct (bool_decide _) in IH; lia).
      all: rewrite (bool_decide_ext (id ∈ fetchingInfo (store w) ∖ {[playerId0]})
                      (id ∈ fetchingInfo (store w))) by set_solver; lia. }
  pose proof (Hinv playerId) as Hid. split; [done|]. split.
  - intros Hpos. unfold fetchPlayerInfo.
    case_bool_decide; [done|]. rewrite Hid in Hpos. lia.
  - intros Hzero. unfold fetchPlayerInfo, in_flight.
    case_bool_decide as Hin; [rewrite Hid in Hzero; lia|]. cbn.
    split; [done|]. rewrite filter_length_snoc. cbn. rewrite Z.eqb_refl.
    unfold in_flight in Hzero. lia.
Qed.

Lemma fetchPlayerInfo_one_request_per_player_witness :
  reachable enriching_world ∧
  in_flight (awaits_info 1) enriching_world = 1%nat ∧
  fetchPlayerInfo 1 enriching_world = enriching_world.
Proof.
  assert (reachable enriching_world) as Hreach.
  { exists [Invoke CallFetchPlayers;
            Settle 0 (Fulfilled (PlayersData [sample_player 1]));
            Invoke (CallFetchPlayerInfo 1)].
    vm_compute. reflexivity. }
  split; [exact Hreach|].
  destruct (fetchPlayerInfo_one_request_per_player enriching_world 1 Hreach)
    as (Hcount & Hnoop & _).
  split; [exact Hcount|]. apply Hnoop. rewrite Hcount. vm_compute. lia.
Defined.

(** X6: in every reachable state at most one bulk prediction is in flight,
    and no bulk request that was ever sent carried an empty list of ids. *)
Theorem bulk_request_never_empty_nor_doubled (w : World) :
  reachable w →
  (in_flight awaits_bulk w ≤ 1)%nat ∧
  Forall (fun r => is_empty_bulk r = false) (requests w).
Proof.
  intros Hreach. split.
  { pose proof (invariant_reachable w Hreach) as [_ _ Hbulk].
    destruct (predictionsBatching (store w)); lia. }
  revert w Hreach. apply reachable_ind; [constructor|].
  intros w e w' _ IH Hstep.
  assert (∀ q t w0, Forall (fun r => is_empty_bulk r = false) (requests w0) →
            is_empty_bulk q = false →
            Forall (fun r => is_empty_bulk r = false) (requests (send q t w0)))
    as Hsend.
  { intros q t w0 H0 Hq. cbn. apply Forall_app. split; [done|].
    by constructor. }
  destruct e as [c|i r].
  - injection Hstep as <-. destruct c; cbn; try done.
    + unfold fetchPlayers. apply (Hsend _ AwaitSummary); [by destruct (Nat.eqb _ 0)|done].
    + unfold fetchTeams. destruct (teamsFetching (store w)); [done|].
      by apply (Hsend _ AwaitTeams).
    + by apply (Hsend _ (AwaitPredict playerId 0 0)).
    + unfold fetchPlayerInfo. case_bool_decide; [done|].
      by apply (Hsend _ (AwaitInfo playerId)).
    + destruct (negb _ && negb _); [|done]. unfold fetchTeams.
      destruct (teamsFetching (store w)); [done|].
      by apply (Hsend _ AwaitTeams).
    + unfold batchPredictAll. destruct (predictionsBatching (store w)); [done|].
      cbn. destruct (players (store w)) as [|p ps] eqn:Hps; [done|].
      cbn. apply Forall_app. split; [done|]. by constructor.
  - cbn in Hstep. destruct (inflight w !! i) as [t|] eqn:Hi; [|done].
    destruct t, r as [[]|message]; simplify_eq/=; try done.
    apply Forall_app. split; [done|]. by constructor.
Qed.

Lemma bulk_request_never_empty_nor_doubled_witness :
  reachable busy_world ∧
  (in_flight awaits_bulk busy_world ≤ 1)%nat ∧
  Forall (fun r => is_empty_bulk r = false) (requests busy_world).
Proof.
  assert (reachable busy_world) as Hreach by (exists busy_events; reflexivity).
  split; [exact Hreach|].
  exact (bulk_request_never_empty_nor_doubled busy_world Hreach).
Defined.

(** X7: a rejected request never costs cached data.  Whatever operation it
    belongs to, the step is defined and leaves the players, the teams, the
    predictions and the selection as they were.  Every operation but the
    first attempt of [fetchPlayers] stores the message in the error slot and
    sends nothing more; the first attempt of [fetchPlayers] leaves the whole
    store alone and asks the fallback endpoint. *)
Theorem rejection_keeps_cached_data
    (w : World) (i : nat) (t : Task) (message : string) :
  inflight w !! i = Some t →
  ∃ w',
    step w (Settle i (Rejected message)) = Some w' ∧
    players (store w') = players (store w) ∧
    teams (store w') = teams (store w) ∧
    injuryPredictions (store w') = injuryPredictions (store w) ∧
    selectedPlayerId (store w') = selectedPlayerId (store w) ∧
    (t ≠ AwaitSummary →
     error (store w') = Some message ∧ requests w' = requests w) ∧
    (t = AwaitSummary →
     store w' = store w ∧ requests w' = requests w ++ [GetPlayers]).
Proof.
  intros Hi. rewrite (step_settle _ _ _ _ Hi).
  destruct t; cbn; (eexists; split; [reflexivity|]); by split_and!.
Qed.

Lemma rejection_keeps_cached_data_witness :
  inflight busy_world !! 1%nat = Some AwaitBulk ∧
  ∃ w',
    step busy_world (Settle 1 (Rejected "Network Error")) = Some w' ∧
    players (store w') = [sample_player 1] ∧
    error (store w') = Some "Network Error".
Proof.
  assert (inflight busy_world !! 1%nat = Some AwaitBulk) as Hi by reflexivity.
  split; [exact Hi|].
  destruct (rejection_keeps_cached_data busy_world 1 AwaitBulk "Network Error" Hi)
    as (w' & Hstep & Hplayers & _ & _ & _ & Herr & _).
  exists w'. split; [exact Hstep|]. split; [exact Hplayers|].
  apply Herr. discriminate.
Defined.

(** The keys of a map after [set] calls: the old keys, then new ones. *)
Lemma jsmap_keys_set_prefix {V} k (v : V) (m : list (Z * V)) :
  m.*1 `prefix_of` (JsMap.set k v m).*1.
Proof.
  rewrite jsmap_keys_set. case_bool_decide; [done|]. by apply prefix_app_r.
Qed.

Lemma jsmap_keys_fold_prefix {V B} (key : B → Z) (val : B → V)
    (l : list B) (m : list (Z * V)) :
  m.*1 `prefix_of`
    (fold_left (fun a b => JsMap.set (key b) (val b) a) l m).*1.
Proof.
  revert m. induction l as [|b l IH]; intros m; cbn; [done|].
  etrans; [apply jsmap_keys_set_prefix|apply IH].
Qed.

Lemma jsmap_get_is_Some {V} k (m : list (Z * V)) :
  is_Some (JsMap.get k m) ↔ k ∈ m.*1.
Proof.
  induction m as [|[k' v'] m IH]; cbn.
  - split; [by intros [? ?]|set_solver].
  - destruct (Z.eqb_spec k k') as [->|Hne].
    + split; [set_solver|by eexists].
    + rewrite IH. set_solver.
Qed.

(** Along a run from a reachable state the keys of the prediction map are
    only extended at the end. *)
Lemma prediction_keys_prefix (w w' : World) (evs : list Event) :
  reachable w →
  run w evs = Some w' →
  (injuryPredictions (store w)).*1 `prefix_of`
    (injuryPredictions (store w')).*1.
Proof.
  revert w. induction evs as [|e evs IH]; intros w Hreach Hrun.
  - by injection Hrun as <-.
  - cbn in Hrun. destruct (step w e) as [w1|] eqn:Hstep; [|done].
    cbn in Hrun. etrans; [|apply (IH w1); [by eapply reachable_step|done]].
    pose proof (invariant_reachable w Hreach) as [Hnd _ _].
    clear IH Hrun. destruct e as [c|i r].
    + injection Hstep as <-. destruct c; cbn; try done.
      * unfold fetchPlayers. by destruct (Nat.eqb _ 0).
      * unfold fetchTeams. by destruct (teamsFetching (store w)).
      * unfold fetchPlayerInfo. by case_bool_decide.
      * destruct (negb _ && negb _); [|done]. unfold fetchTeams.
        by destruct (teamsFetching (store w)).
      * unfold batchPredictAll. by destruct (_ || _).
    + cbn in Hstep. destruct (inflight w !! i) as [t|] eqn:Hi; [|done].
      destruct t, r as [[]|message]; simplify_eq/=; try done.
      * rewrite (jsmap_copy_id _ Hnd). apply jsmap_keys_set_prefix.
      * rewrite (jsmap_copy_id _ Hnd). apply jsmap_keys_fold_prefix.
Qed.

(** X8: the store never drops a prediction.  Along any run from a reachable
    state the keys of the prediction map keep their order and new keys are
    only added behind them; so an id that has a prediction keeps having
    one, and the map never shrinks. *)
Theorem predictions_never_evicted (w w' : World) (evs : list Event) :
  reachable w →
  run w evs = Some w' →
  (injuryPredictions (store w)).*1 `prefix_of`
    (injuryPredictions (store w')).*1 ∧
  (∀ id, is_Some (JsMap.get id (injuryPredictions (store w))) →
         is_Some (JsMap.get id (injuryPredictions (store w')))) ∧
  (length (injuryPredictions (store w)) ≤
   length (injuryPredictions (store w')))%nat.
Proof.
  intros Hreach Hrun.
  pose proof (prediction_keys_prefix w w' evs Hreach Hrun) as Hprefix.
  split; [done|]. split.
  - intros id. rewrite !jsmap_get_is_Some. intros Hin.
    destruct Hprefix as [k ->]. set_solver.
  - apply prefix_length in Hprefix. by rewrite !length_fmap in Hprefix.
Qed.

Lemma predictions_never_evicted_witness :
  reachable bulk_done_world ∧
  ∃ w',
    run bulk_done_world
      [Invoke (CallPredictInjury 2 None None);
       Settle 0 (Fulfilled (PredictionData (sample_prediction 2 None)));
       Invoke CallBatchPredictAll;
       Settle 0 (Fulfilled (BulkData [(2, sample_prediction 2 None)]))] =
      Some w' ∧
    (injuryPredictions (store bulk_done_world)).*1 = [1] ∧
    (injuryPredictions (store w')).*1 = [1; 2] ∧
    is_Some (JsMap.get 1 (injuryPredictions (store bulk_done_world))) ∧
    is_Some (JsMap.get 1 (injuryPredictions (store w'))).
Proof.
  assert (reachable bulk_done_world) as Hreach
    by (exists bulk_events; reflexivity).
  assert (is_Some (JsMap.get 1 (injuryPredictions (store bulk_done_world))))
    as Hhas by (eexists; reflexivity).
  split; [exact Hreach|].
  eexists. split; [reflexivity|].
  split; [reflexivity|]. split; [reflexivity|]. split; [exact Hhas|].
  exact (proj1 (proj2 (predictions_never_evicted bulk_done_world _
                  [Invoke (CallPredictInjury 2 None None);
                   Settle 0 (Fulfilled (PredictionData (sample_prediction 2 None)));
                   Invoke CallBatchPredictAll;
                   Settle 0 (Fulfilled (BulkData [(2, sample_prediction 2 None)]))]
                  Hreach eq_refl)) 1 Hhas).
Defined.

Lemma jsmap_set_Forall {V} (P : Z * V → Prop) k v (m : list (Z * V)) :
  Forall P m → P (k, v) → Forall P (JsMap.set k v m).
Proof.
  intros Hm Hkv. induction Hm as [|[k' v'] m Hx Hm IH]; cbn.
  - by constructor.
  - destruct (Z.eqb k k'); by constructor.
Qed.

Lemma jsmap_fold_set_Forall {V B} (P : Z * V → Prop) (key : B → Z)
    (val : B → V) (l : list B) (m : list (Z * V)) :
  Forall P m → Forall (fun b => P (key b, val b)) l →
  Forall P (fold_left (fun a b => JsMap.set (key b) (val b) a) l m).
Proof.
  intros Hm Hl. revert m Hm. induction Hl as [|b l Hb Hl IH]; intros m Hm; cbn.
  - done.
  - apply IH. by apply jsmap_set_Forall.
Qed.

(** X9: in every reachable state, a prediction that a bulk pass stored sits
    under the [player_id] that the stored object itself carries, whatever
    property name it had in the response body. *)
Theorem bulk_entries_keyed_by_own_id (w : World) :
  reachable w →
  ∀ id p,
    (id, AsReceived p) ∈ injuryPredictions (store w) →
    PredictionResponse.player_id p = id.
Proof.
  intros Hreach.
  assert (Forall keyed_by_own_id (injuryPredictions (store w))) as Hall.
  { revert w Hreach. apply reachable_ind; [constructor|].
    intros w e w' _ IH Hstep.
    assert (Forall keyed_by_own_id (JsMap.copy (injuryPredictions (store w))))
      as Hcopy.
    { apply (jsmap_fold_set_Forall keyed_by_own_id fst snd); [constructor|].
      eapply Forall_impl; [exact IH|]. by intros [k v]. }
    destruct e as [c|i r].
    - injection Hstep as <-. destruct c; cbn; try done.
      + unfold fetchPlayers. by destruct (Nat.eqb _ 0).
      + unfold fetchTeams. by destruct (teamsFetching (store w)).
      + unfold fetchPlayerInfo. by case_bool_decide.
      + destruct (negb _ && negb _); [|done]. unfold fetchTeams.
        by destruct (teamsFetching (store w)).
      + unfold batchPredictAll. by destruct (_ || _).
    - cbn in Hstep. destruct (inflight w !! i) as [t|] eqn:Hi; [|done].
      destruct t, r as [[]|message]; simplify_eq/=; try done.
      + by apply jsmap_set_Forall.
      + apply jsmap_fold_set_Forall; [done|]. by apply Forall_forall. }
  intros id p Hin. rewrite Forall_forall in Hall. exact (Hall _ Hin).
Qed.

Lemma bulk_entries_keyed_by_own_id_witness :
  reachable bulk_done_world ∧
  (1, AsReceived (sample_prediction 1 None))
    ∈ injuryPredictions (store bulk_done_world) ∧
  PredictionResponse.player_id (sample_prediction 1 None) = 1.
Proof.
  assert (reachable bulk_done_world) as Hreach
    by (exists bulk_events; reflexivity).
  assert ((1, AsReceived (sample_prediction 1 None))
            ∈ injuryPredictions (store bulk_done_world)) as Hin
    by (apply list_elem_of_singleton; reflexivity).
  split; [exact Hreach|]. split; [exact Hin|].
  exact (bulk_entries_keyed_by_own_id bulk_done_world Hreach _ _ Hin).
Defined.

(** X10: no step of the store sends more than one request, and the log of
    requests is only ever extended at its end.  Selecting a player and
    looking a player up send nothing. *)
Theorem step_sends_at_most_one_request (w w' : World) (e : Event) :
  step w e = Some w' →
  (requests w' = requests w ∨ ∃ r, requests w' = requests w ++ [r]) ∧
  (∀ playerId,
     e = Invoke (CallSelectPlayer playerId) → requests w' = requests w) ∧
  (∀ playerId,
     e = Invoke (CallGetPlayerById playerId) → w' = w).
Proof.
  intros Hstep. split_and!.
  - destruct e as [c|i r].
    + injection Hstep as <-. destruct c; cbn; eauto.
      * unfold fetchPlayers. destruct (Nat.eqb _ 0); cbn; eauto.
      * unfold fetchTeams. destruct (teamsFetching (store w)); cbn; eauto.
      * unfold fetchPlayerInfo. case_bool_decide; cbn; eauto.
      * destruct (negb _ && negb _); eauto. unfold fetchTeams.
        destruct (teamsFetching (store w)); cbn; eauto.
      * unfold batchPredictAll. destruct (_ || _); cbn; eauto.
    + cbn in Hstep. destruct (inflight w !! i) as [t|] eqn:Hi; [|done].
      destruct t, r as [[]|message]; simplify_eq/=; eauto.
  - intros playerId ->. by injection Hstep as <-.
  - intros playerId ->. by injection Hstep as <-.
Qed.

Lemma step_sends_at_most_one_request_witness :
  step initialWorld (Invoke CallFetchTeams) = Some (fetchTeams initialWorld) ∧
  (requests (fetchTeams initialWorld) = requests initialWorld ∨
   ∃ r, requests (fetchTeams initialWorld) = requests initialWorld ++ [r]).
Proof.
  assert (step initialWorld (Invoke CallFetchTeams) =
            Some (fetchTeams initialWorld)) as Hstep by reflexivity.
  split; [exact Hstep|].
  exact (proj1 (step_sends_at_most_one_request _ _ _ Hstep)).
Defined.

(** X12: [predictInjury] has no guard, and the response that arrives last
    decides the entry.  When two predictions for the same player are in
    flight and the one asked later is answered first, the answer to the one
    asked first replaces it: the map ends with the older request's
    result. *)
Theorem predictInjury_last_response_wins
    (w : World) (i j : nat) (playerId : Z) (ti hi tj hj : Q)
    (di dj : PredictionResponse.t) :
  (i < j)%nat →
  inflight w !! i = Some (AwaitPredict playerId ti hi) →
  inflight w !! j = Some (AwaitPredict playerId tj hj) →
  ∃ w',
    run w [Settle j (Fulfilled (PredictionData dj));
           Settle i (Fulfilled (PredictionData di))] = Some w' ∧
    JsMap.get playerId (injuryPredictions (store w')) =
      Some (Normalized (normalize di ti hi)) ∧
    JsMap.entries_for playerId (injuryPredictions (store w')) = 1%nat ∧
    requests w' = requests w.
Proof.
  intros Hij Hi Hj. cbn [run mbind option_bind].
  rewrite (step_settle _ _ _ _ Hj). cbn [resume predictInjury_settled].
  cbn [mbind option_bind].
  rewrite (step_settle _ i (AwaitPredict playerId ti hi)).
  2:{ cbn. by rewrite list_lookup_delete_lt. }
  cbn. eexists; split; [reflexivity|]. cbn. split_and!.
  - apply jsmap_get_set_eq.
  - eapply jsmap_entries_for_get; [|apply jsmap_get_set_eq].
    apply jsmap_set_NoDup, jsmap_copy_NoDup.
  - done.
Qed.

Lemma predictInjury_last_response_wins_witness :
  (0 < 1)%nat ∧
  inflight racing_world !! 0%nat = Some (AwaitPredict 1 72%Q 50%Q) ∧
  inflight racing_world !! 1%nat = Some (AwaitPredict 1 90%Q 80%Q) ∧
  ∃ w',
    run racing_world
      [Settle 1 (Fulfilled (PredictionData (sample_prediction 1 None)));
       Settle 0 (Fulfilled (PredictionData (sample_prediction 1 None)))] =
      Some w' ∧
    JsMap.get 1 (injuryPredictions (store w')) =
      Some (Normalized (normalize (sample_prediction 1 None) 72%Q 50%Q)).
Proof.
  assert ((0 < 1)%nat) as Hlt by lia.
  assert (inflight racing_world !! 0%nat = Some (AwaitPredict 1 72%Q 50%Q))
    as H0 by reflexivity.
  assert (inflight racing_world !! 1%nat = Some (AwaitPredict 1 90%Q 80%Q))
    as H1 by reflexivity.
  split; [exact Hlt|]. split; [exact H0|]. split; [exact H1|].
  destruct (predictInjury_last_response_wins racing_world 0 1 1 _ _ _ _
              (sample_prediction 1 None) (sample_prediction 1 None) Hlt H0 H1)
    as (w' & Hrun & Hget & _).
  exists w'. split; [exact Hrun|exact Hget].
Defined.

(** X13: enriching never adds, removes or reorders players.  After a
    successful [fetchPlayerInfo(playerId)] the collection has the same
    length; when no player has the id it is unchanged; and when the
    response carries no [id], or carries [playerId] itself, the ids of the
    collection are the same as before, and [getPlayerById(playerId)] then
    returns the merge of what it returned before. *)
Theorem fetchPlayerInfo_keeps_collection_shape
    (w : World) (i : nat) (playerId : Z) (data : PlayerInfo.t) :
  inflight w !! i = Some (AwaitInfo playerId) →
  ∃ w',
    step w (Settle i (Fulfilled (InfoData data))) = Some w' ∧
    length (players (store w')) = length (players (store w)) ∧
    ((∀ p, p ∈ players (store w) → Player.id p ≠ playerId) →
     players (store w') = players (store w)) ∧
    (PlayerInfo.id data = None ∨ PlayerInfo.id data = Some playerId →
     map Player.id (players (store w')) = map Player.id (players (store w)) ∧
     ∀ p, (getPlayerById playerId w).1 = Some p →
          (getPlayerById playerId w').1 = Some (spread p data)).
Proof.
  intros Hi. rewrite (step_settle _ _ _ _ Hi).
  eexists; split; [reflexivity|]. unfold getPlayerById. cbn -[List.find].
  generalize (players (store w)). intros l. split_and!.
  - by rewrite length_map.
  - intros Hall. induction l as [|q l IH]; cbn; [done|].
    destruct (Z.eqb_spec (Player.id q) playerId) as [Hq|Hq].
    + destruct (Hall q); [set_solver|done].
    + f_equal. apply IH. intros p Hp. apply Hall. set_solver.
  - intros Hid.
    assert (∀ q, Player.id q = playerId → Player.id (spread q data) = playerId)
      as Hsame.
    { intros q Hq. cbn. by destruct Hid as [-> | ->]. }
    split.
    + induction l as [|q l IH]; cbn; [done|]. f_equal; [|done].
      destruct (Z.eqb_spec (Player.id q) playerId) as [Hq|Hq]; [|done].
      rewrite Hsame; done.
    + intros p. induction l as [|q l IH]; cbn; [done|].
      destruct (Z.eqb_spec (Player.id q) playerId) as [Hq|Hq].
      * intros [= <-]. rewrite (Hsame q Hq), Z.eqb_refl. done.
      * destruct (Z.eqb_spec (Player.id q) playerId); [done|]. apply IH.
Qed.

Lemma fetchPlayerInfo_keeps_collection_shape_witness :
  inflight enriching_world !! 0%nat = Some (AwaitInfo 1) ∧
  ∃ w',
    step enriching_world (Settle 0 (Fulfilled (InfoData height_only))) =
      Some w' ∧
    (getPlayerById 1 w').1 = Some (spread (sample_player 1) height_only).
Proof.
  assert (inflight enriching_world !! 0%nat = Some (AwaitInfo 1)) as Hi
    by reflexivity.
  split; [exact Hi|].
  destruct (fetchPlayerInfo_keeps_collection_shape enriching_world 0 1
              height_only Hi) as (w' & Hstep & _ & _ & Hids).
  exists w'. split; [exact Hstep|].
  destruct (Hids (or_introl eq_refl)) as [_ Hget].
  apply Hget. reflexivity.
Defined.

(** ** Properties of the code that uses the store *)

(** X14: the mount effect of the dashboard, run while no team load is in
    flight, sends the summary request and then the teams request; the two
    share one loading flag, which is up after the effect.  When the
    teams answer first the flag goes down although the players are still
    being fetched. *)
Theorem dashboard_mount_shares_loading_flag (w : World) (L : list Team.t) :
  teamsFetching (store w) = false →
  let w1 := Dashboard.mount w in
  requests w1 = requests w ++ [GetPlayersSummary; GetTeams] ∧
  inflight w1 = inflight w ++ [AwaitSummary; AwaitTeams] ∧
  loading (store w1) = true ∧
  error (store w1) = None ∧
  ∃ w2,
    step w1 (Settle (S (length (inflight w))) (Fulfilled (TeamsData L))) =
      Some w2 ∧
    loading (store w2) = false ∧
    teams (store w2) = L ∧
    inflight w2 = inflight w ++ [AwaitSummary] ∧
    players (store w2) = players (store w).
Proof.
  intros Hidle w1. subst w1. unfold Dashboard.mount.
  destruct (fetchPlayers_prepared_frame w) as (Hin & Hreq & Hplayers & _).
  assert (teamsFetching (store (fetchPlayers_prepared w)) = false) as Hidle1.
  { unfold fetchPlayers_prepared. by destruct (Nat.eqb _ 0). }
  change (fetchPlayers w)
    with (send GetPlayersSummary AwaitSummary (fetchPlayers_prepared w)).
  unfold fetchTeams, send. cbn [store teamsFetching]. rewrite Hidle1.
  cbn [update store inflight requests]. rewrite Hin, Hreq, <- !app_assoc.
  cbn [app]. split_and!; try done.
  cbn [step mbind option_bind inflight].
  assert ((inflight w ++ [AwaitSummary; AwaitTeams]) !! S (length (inflight w))
          = Some AwaitTeams) as Hlook.
  { change [AwaitSummary; AwaitTeams] with ([AwaitSummary] ++ [AwaitTeams]).
    rewrite app_assoc.
    replace (S (length (inflight w))) with (length (inflight w ++ [AwaitSummary]))
      by (rewrite length_app; cbn; lia).
    apply lookup_snoc. }
  assert (delete (S (length (inflight w))) (inflight w ++ [AwaitSummary; AwaitTeams])
          = inflight w ++ [AwaitSummary]) as Hdel.
  { change [AwaitSummary; AwaitTeams] with ([AwaitSummary] ++ [AwaitTeams]).
    rewrite app_assoc.
    replace (S (length (inflight w))) with (length (inflight w ++ [AwaitSummary]))
      by (rewrite length_app; cbn; lia).
    apply delete_snoc. }
  rewrite Hlook, Hdel. cbn.
  eexists; split; [reflexivity|]. by cbn.
Qed.

Lemma dashboard_mount_shares_loading_flag_witness :
  teamsFetching (store initialWorld) = false ∧
  requests (Dashboard.mount initialWorld) = [GetPlayersSummary; GetTeams] ∧
  ∃ w2,
    step (Dashboard.mount initialWorld)
      (Settle 1 (Fulfilled (TeamsData [sample_team 14]))) = Some w2 ∧
    loading (store w2) = false ∧
    inflight w2 = [AwaitSummary].
Proof.
  assert (teamsFetching (store initialWorld) = false) as Hidle by reflexivity.
  split; [exact Hidle|].
  destruct (dashboard_mount_shares_loading_flag initialWorld [sample_team 14]
              Hidle) as (Hreq & _ & _ & _ & w2 & Hstep & Hload & _ & Hin & _).
  split; [exact Hreq|]. exists w2.
  split; [exact Hstep|]. split; [exact Hload|exact Hin].
Defined.

(** X15: the effect of the analytics page that makes sure predictions
    exist asks for a bulk prediction only when players are loaded, no
    prediction is cached and no bulk request is in flight; it then sends the
    ids of all players.  Once any prediction is cached the effect does
    nothing in any later state, since predictions are never dropped. *)
Theorem analytics_effect_fires_only_without_predictions (w : World) :
  reachable w →
  (injuryPredictions (store w) ≠ [] →
   ∀ evs w', run w evs = Some w' → Analytics.ensurePredictions w' = w') ∧
  (players (store w) = [] → Analytics.ensurePredictions w = w) ∧
  ((0 < in_flight awaits_bulk w)%nat → Analytics.ensurePredictions w = w) ∧
  (players (store w) ≠ [] →
   injuryPredictions (store w) = [] →
   in_flight awaits_bulk w = 0%nat →
   requests (Analytics.ensurePredictions w) =
     requests w ++ [PostPredictBulk (map Player.id (players (store w)))]).
Proof.
  intros Hreach. pose proof (invariant_reachable w Hreach) as [_ _ Hbulk].
  unfold Analytics.ensurePredictions. split_and!.
  - intros Hsome evs w' Hrun.
    pose proof (prediction_keys_prefix w w' evs Hreach Hrun) as Hprefix.
    apply prefix_length in Hprefix. rewrite !length_fmap in Hprefix.
    destruct (injuryPredictions (store w)) as [|e m]; [done|].
    destruct (injuryPredictions (store w')) as [|e' m']; [cbn in *; lia|].
    cbn. by rewrite andb_false_r.
  - intros ->. done.
  - intros Hpos. destruct (_ && _); [|done]. unfold batchPredictAll.
    destruct (predictionsBatching (store w)); [done|lia].
  - intros Hplayers Hnone Hidle. rewrite Hnone.
    destruct (players (store w)) as [|p ps] eqn:Hps; [done|]. cbn.
    unfold batchPredictAll. rewrite Hps.
    destruct (predictionsBatching (store w)); [lia|]. done.
Qed.

Lemma analytics_effect_fires_only_without_predictions_witness :
  reachable bulk_done_world ∧
  injuryPredictions (store bulk_done_world) ≠ [] ∧
  Analytics.ensurePredictions (fetchTeams bulk_done_world) =
    fetchTeams bulk_done_world.
Proof.
  assert (reachable bulk_done_world) as Hreach
    by (exists bulk_events; reflexivity).
  assert (injuryPredictions (store bulk_done_world) ≠ []) as Hsome
    by (cbn; discriminate).
  split; [exact Hreach|]. split; [exact Hsome|].
  destruct (analytics_effect_fires_only_without_predictions bulk_done_world
              Hreach) as (Hlater & _).
  apply (Hlater Hsome [Invoke CallFetchTeams]). reflexivity.
Defined.

Lemma tally_fold (l : list Stored) (acc : StatsOverview.RiskStats) :
  fold_left StatsOverview.tally l acc =
  StatsOverview.mkRiskStats
    (StatsOverview.high acc +
     length (List.filter (fun p => RiskLevel_eqb (stored_risk_level p) High) l))
    (StatsOverview.medium acc +
     length (List.filter (fun p => RiskLevel_eqb (stored_risk_level p) Medium) l))
    (StatsOverview.low acc +
     length (List.filter (fun p => RiskLevel_eqb (stored_risk_level p) Low) l))
    (StatsOverview.total acc).
Proof.
  revert acc. induction l as [|p l IH]; intros acc; cbn.
  - destruct acc. cbn. f_equal; lia.
  - rewrite IH. unfold StatsOverview.tally.
    destruct (stored_risk_level p); cbn; f_equal; lia.
Qed.

Lemma level_counts_partition (l : list Stored) :
  (length (List.filter (fun p => RiskLevel_eqb (stored_risk_level p) Low) l) +
   length (List.filter (fun p => RiskLevel_eqb (stored_risk_level p) Medium) l) +
   length (List.filter (fun p => RiskLevel_eqb (stored_risk_level p) High) l)
   = length l)%nat.
Proof.
  induction l as [|p l IH]; cbn; [done|].
  destruct (stored_risk_level p); cbn; lia.
Qed.

(** X16: the risk counters of the statistics header split the cached
    predictions: high, medium and low add up to the total, the total is
    the size of the map, and each counter is the number that the analytics
    page computes for the same level. *)
Theorem riskStats_partitions_predictions (predictions : list (Z * Stored)) :
  let s := StatsOverview.riskStats predictions in
  (StatsOverview.high s + StatsOverview.medium s + StatsOverview.low s =
   StatsOverview.total s)%nat ∧
  StatsOverview.total s = length predictions ∧
  StatsOverview.high s = Analytics.levelCount High predictions ∧
  StatsOverview.medium s = Analytics.levelCount Medium predictions ∧
  StatsOverview.low s = Analytics.levelCount Low predictions.
Proof.
  unfold StatsOverview.riskStats, Analytics.levelCount. rewrite tally_fold. cbn.
  pose proof (level_counts_partition predictions.*2) as Hsum.
  rewrite length_fmap in Hsum. split_and!; (done || lia).
Qed.

(** X17: the slices of the risk pie add up to the number of cached
    predictions, no slice of the pie is empty, and the pie has no slice at
    all exactly when nothing is cached. *)
Theorem pieData_covers_predictions (predictions : list (Z * Stored)) :
  sum_list (Analytics.value <$> Analytics.pieData predictions) =
    length predictions ∧
  (∀ d, d ∈ Analytics.pieData predictions → (0 < Analytics.value d)%nat) ∧
  (Analytics.pieData predictions = [] ↔ predictions = []).
Proof.
  pose proof (level_counts_partition predictions.*2) as Hsum.
  rewrite length_fmap in Hsum.
  unfold Analytics.pieData, Analytics.riskDistribution, Analytics.levelCount.
  set (lo := length (List.filter (fun p => RiskLevel_eqb (stored_risk_level p) Low) predictions.*2)) in *.
  set (me := length (List.filter (fun p => RiskLevel_eqb (stored_risk_level p) Medium) predictions.*2)) in *.
  set (hi := length (List.filter (fun p => RiskLevel_eqb (stored_risk_level p) High) predictions.*2)) in *.
  clearbody lo me hi. split_and!.
  - cbn. destruct lo, me, hi; cbn; lia.
  - intros d Hd. apply list_elem_of_In, List.filter_In in Hd as [_ Hd].
    by apply Nat.ltb_lt.
  - split.
    + intros Hnil. apply length_zero_iff_nil. rewrite <- Hsum.
      destruct lo, me, hi; cbn in Hnil; (done || discriminate).
    + intros ->. cbn in Hsum. by destruct lo, me, hi.
Qed.

(** X18: the risk chart has one bar per player for the first ten players,
    in their order.  A bar has the level "Unknown", and is drawn grey,
    exactly when no prediction is cached for its player. *)
Theorem chart_bars_follow_players
    (players : list Player.t) (predictions : list (Z * Stored)) :
  length (InjuryRiskChart.data players predictions) =
    Nat.min 10 (length players) ∧
  (∀ i b,
     InjuryRiskChart.data players predictions !! i = Some b →
     (i < 10)%nat ∧
     ∃ player, players !! i = Some player ∧
               b = InjuryRiskChart.bar predictions player) ∧
  (∀ player,
     InjuryRiskChart.level (InjuryRiskChart.bar predictions player) = "Unknown"
     ↔ JsMap.get (Player.id player) predictions = None) ∧
  (∀ player,
     InjuryRiskChart.getBarColor
       (InjuryRiskChart.level (InjuryRiskChart.bar predictions player)) =
       "#6B7280"
     ↔ JsMap.get (Player.id player) predictions = None).
Proof.
  unfold InjuryRiskChart.data. split_and!.
  - by rewrite length_map, length_take.
  - intros i b. change (map ?f ?l) with (f <$> l).
    rewrite list_lookup_fmap. intros Hb.
    destruct (take 10 players !! i) as [player|] eqn:Hi; [|done].
    injection Hb as <-.
    pose proof (lookup_lt_Some _ _ _ Hi) as Hlt. rewrite length_take in Hlt.
    split; [lia|]. exists player. split; [|done].
    rewrite lookup_take_lt in Hi; [done|lia].
  - intros player. unfold InjuryRiskChart.bar. cbn.
    destruct (JsMap.get _ _) as [p|]; [|done].
    by destruct (stored_risk_level p).
  - intros player. unfold InjuryRiskChart.bar. cbn.
    destruct (JsMap.get _ _) as [p|]; [|done].
    by destruct (stored_risk_level p).
Qed.

(** X19: the thermometer is green exactly for temperatures from 50 to 85.
    For every temperature but zero the impact sentence warns of extreme
    temperatures exactly when the thermometer is not green.  At exactly
    zero degrees the two disagree: the thermometer is blue and the
    sentence says that the temperature is within the optimal range. *)
Theorem weather_icon_and_sentence (weather : WeatherPanel.WeatherData) :
  let t := WeatherPanel.temperature weather in
  (WeatherPanel.getTemperatureColor t = "text-green-600"
   ↔ (50 <= t)%Q ∧ (t <= 85)%Q) ∧
  (¬ (t == 0)%Q →
   (WeatherPanel.temperatureImpact (Some weather) =
      " Extreme temperatures may increase injury risk. "
    ↔ WeatherPanel.getTemperatureColor t ≠ "text-green-600")) ∧
  ((t == 0)%Q →
   WeatherPanel.getTemperatureColor t = "text-blue-600" ∧
   WeatherPanel.temperatureImpact (Some weather) =
     " Temperature is within optimal range. ").
Proof.
  intros t. unfold WeatherPanel.getTemperatureColor,
    WeatherPanel.temperatureImpact, WeatherPanel.gt. fold t.
  split_and!.
  - rewrite <- !Qle_bool_iff.
    destruct (Qle_bool t 85), (Qle_bool 50 t); cbn; intuition discriminate.
  - intros Hnz. rewrite <- Qeq_bool_iff in Hnz.
    apply not_true_is_false in Hnz. rewrite Hnz.
    destruct (Qle_bool t 85), (Qle_bool 50 t); cbn; intuition discriminate.
  - intros Hz.
    assert (Qle_bool t 85 = true) as ->.
    { apply Qle_bool_iff. rewrite Hz. unfold Qle. cbn. lia. }
    assert (Qle_bool 50 t = false) as ->.
    { apply not_true_is_false. rewrite Qle_bool_iff, Hz.
      unfold Qle. cbn. lia. }
    apply Qeq_bool_iff in Hz. by rewrite Hz.
Qed.

Lemma weather_icon_and_sentence_witness :
  (0 == 0)%Q ∧
  WeatherPanel.getTemperatureColor 0 = "text-blue-600" ∧
  WeatherPanel.temperatureImpact
    (Some (WeatherPanel.mkWeatherData 0 40 "Clear" 5 "Denver")) =
    " Temperature is within optimal range. ".
Proof.
  assert (0 == 0)%Q as H0 by reflexivity.
  split; [exact H0|].
  exact (proj2 (proj2 (weather_icon_and_sentence
                         (WeatherPanel.mkWeatherData 0 40 "Clear" 5 "Denver")))
           H0).
Defined.

Lemma Set_from_fold (xs acc : list string) :
  NoDup acc →
  NoDup (fold_left Analytics.Set_add xs acc) ∧
  ∀ x, x ∈ fold_left Analytics.Set_add xs acc ↔ x ∈ acc ∨ x ∈ xs.
Proof.
  revert acc. induction xs as [|y xs IH]; intros acc Hnd; cbn.
  - split; [done|]. set_solver.
  - assert (NoDup (Analytics.Set_add acc y)) as Hnd'.
    { unfold Analytics.Set_add. case_bool_decide; [done|].
      apply NoDup_app. split_and!; [done|set_solver|apply NoDup_singleton]. }
    destruct (IH _ Hnd') as [? Hin]. split; [done|]. intros x. rewrite Hin.
    unfold Analytics.Set_add. case_bool_decide; set_solver.
Qed.

Lemma NoDup_List_filter {A} (f : A → bool) (l : list A) :
  NoDup l → NoDup (List.filter f l).
Proof.
  induction 1 as [|x l Hnin Hnd IH]; cbn; [constructor|].
  destruct (f x); [|done]. constructor; [|done].
  rewrite list_elem_of_In, List.filter_In, <- list_elem_of_In. tauto.
Qed.

Lemma filter_length_disjoint {A} (f g : A → bool) (l : list A) :
  (∀ x, f x = true → g x = true → False) →
  length (List.filter (fun x => f x || g x) l) =
  (length (List.filter f l) + length (List.filter g l))%nat.
Proof.
  intros Hdisj. induction l as [|x l IH]; cbn; [done|].
  destruct (f x) eqn:Hf, (g x) eqn:Hg; cbn; try lia.
  destruct (Hdisj x Hf Hg).
Qed.

(** The players counted position by position, over distinct positions, are
    the players whose position is one of them. *)
Lemma position_counts_sum (players : list Player.t) (P : list string) :
  NoDup P →
  sum_list
    (Analytics.playerCount <$> map (Analytics.positionRow players) P) =
  length
    (List.filter (fun p => bool_decide (Player.position p ∈ P)) players).
Proof.
  induction 1 as [|pos P Hnin Hnd IH]; cbn.
  - induction players as [|p ps IHp]; cbn; [done|].
    rewrite bool_decide_eq_false_2 by set_solver. done.
  - rewrite IH.
    rewrite <- (filter_length_disjoint
                  (fun p => String.eqb (Player.position p) pos)
                  (fun p => bool_decide (Player.position p ∈ P))).
    + f_equal. apply List.filter_ext. intros p.
      destruct (String.eqb_spec (Player.position p) pos) as [->|Hne]; cbn.
      * by rewrite bool_decide_eq_true_2 by set_solver.
      * apply bool_decide_ext. set_solver.
    + intros p Hp Hin. apply String.eqb_eq in Hp. subst pos.
      apply bool_decide_eq_true in Hin. done.
Qed.

(** X20: the rows of the risk-by-position chart.  There is one row per
    distinct non-empty position that some player has; no position is
    listed twice; every
    row counts at least one player, so that the final filter on the player
    count never removes a row; and the counts add up to the number of
    players that have a position. *)
Theorem positionRiskData_rows (players : list Player.t) :
  let rows := Analytics.positionRiskData players in
  rows = map (Analytics.positionRow players) (Analytics.uniquePositions players) ∧
  NoDup (Analytics.position <$> rows) ∧
  (∀ d, d ∈ rows →
        Analytics.position d ≠ "" ∧
        (0 < Analytics.playerCount d)%nat ∧
        ∃ p, p ∈ players ∧ Player.position p = Analytics.position d) ∧
  (∀ p, p ∈ players → Player.position p ≠ "" →
        Player.position p ∈ Analytics.position <$> rows) ∧
  sum_list (Analytics.playerCount <$> rows) =
    length
      (List.filter (fun p => negb (String.eqb (Player.position p) "")) players).
Proof.
  intros rows.
  destruct (Set_from_fold (map Player.position players) [] (NoDup_nil_2))
    as [Hnd Hin].
  fold (Analytics.Set_from (map Player.position players)) in Hnd, Hin.
  assert (NoDup (Analytics.uniquePositions players)) as Hnd'.
  { unfold Analytics.uniquePositions. by apply NoDup_List_filter. }
  assert (∀ pos, pos ∈ Analytics.uniquePositions players ↔
                 pos ≠ "" ∧ ∃ p, p ∈ players ∧ Player.position p = pos)
    as Hpos.
  { intros pos. unfold Analytics.uniquePositions.
    rewrite list_elem_of_In, List.filter_In, <- list_elem_of_In, Hin.
    rewrite negb_true_iff, String.eqb_neq.
    change (map Player.position players) with (Player.position <$> players).
    rewrite list_elem_of_fmap. set_solver. }
  assert (∀ pos, pos ∈ Analytics.uniquePositions players →
                 (0 < Analytics.playerCount (Analytics.positionRow players pos))%nat)
    as Hcount.
  { intros pos [_ (p & Hp & Hpp)]%Hpos. cbn.
    assert (p ∈ List.filter (fun p => String.eqb (Player.position p) pos) players)
      as Hmem.
    { apply list_elem_of_In, List.filter_In. split; [by apply list_elem_of_In|].
      by apply String.eqb_eq. }
    destruct (List.filter _ players); [set_solver|cbn; lia]. }
  assert (rows = map (Analytics.positionRow players)
                   (Analytics.uniquePositions players)) as Hrows.
  { subst rows. unfold Analytics.positionRiskData.
    revert Hcount. generalize (Analytics.uniquePositions players). intros P HP.
    induction P as [|pos P IH]; [done|]. cbn [map List.filter].
    rewrite (proj2 (Nat.ltb_lt _ _) (HP pos ltac:(set_solver))).
    f_equal. apply IH. intros pos' Hin'. apply HP. set_solver. }
  assert (Analytics.position <$> rows = Analytics.uniquePositions players)
    as Hnames.
  { rewrite Hrows. generalize (Analytics.uniquePositions players). intros P.
    induction P as [|pos P IH]; [done|]. cbn. by f_equal. }
  split; [done|]. rewrite Hnames. split; [done|]. split_and!.
  - intros d Hd. rewrite Hrows in Hd.
    change (map ?f ?l) with (f <$> l) in Hd.
    apply list_elem_of_fmap in Hd as (pos & -> & Hin').
    split; [by apply Hpos|]. split; [by apply Hcount|]. by apply Hpos.
  - intros p Hp Hne. apply Hpos. split; [done|]. by exists p.
  - rewrite Hrows, position_counts_sum by done.
    f_equal. apply List.filter_ext_in. intros p Hp. apply list_elem_of_In in Hp.
    destruct (String.eqb_spec (Player.position p) "") as [He|Hne]; cbn.
    + apply bool_decide_eq_false_2. intros [Hn _]%Hpos. done.
    + apply bool_decide_eq_true_2. apply Hpos. split; [done|]. by exists p.
Qed.

(** The order of the top scorers table: more points first. *)
Lemma insert_desc_perm (x : Player.t) (l : list Player.t) :
  Analytics.insert_desc x l ≡ₚ x :: l.
Proof.
  induction l as [|y l IH]; cbn; [done|].
  destruct (Qle_bool _ _); [done|]. rewrite IH. apply Permutation_swap.
Qed.

Lemma sort_desc_perm (l : list Player.t) : Analytics.sort_desc l ≡ₚ l.
Proof.
  induction l as [|x l IH]; cbn; [done|].
  by rewrite insert_desc_perm, IH.
Qed.

Lemma insert_desc_sorted (x : Player.t) (l : list Player.t) :
  StronglySorted
    (fun a b => (Analytics.pts_or_0 b <= Analytics.pts_or_0 a)%Q) l →
  StronglySorted
    (fun a b => (Analytics.pts_or_0 b <= Analytics.pts_or_0 a)%Q)
    (Analytics.insert_desc x l).
Proof.
  induction 1 as [|y l Hl IH Hy]; cbn.
  - repeat constructor.
  - destruct (Qle_bool (Analytics.pts_or_0 y) (Analytics.pts_or_0 x)) eqn:Hle.
    + apply Qle_bool_iff in Hle. constructor; [by constructor|].
      constructor; [done|]. eapply Forall_impl; [exact Hy|].
      intros z Hz. cbn in Hz. by apply (Qle_trans _ (Analytics.pts_or_0 y)).
    + constructor; [done|].
      rewrite insert_desc_perm. constructor; [|done].
      apply Qlt_le_weak, Qnot_le_lt. rewrite <- Qle_bool_iff. by rewrite Hle.
Qed.

Lemma sort_desc_sorted (l : list Player.t) :
  StronglySorted
    (fun a b => (Analytics.pts_or_0 b <= Analytics.pts_or_0 a)%Q)
    (Analytics.sort_desc l).
Proof.
  induction l as [|x l IH]; cbn; [constructor|]. by apply insert_desc_sorted.
Qed.

(** X21: the top scorers table lists at most ten players, all of them
    players of the collection that have a points average, in descending
    order of points; and it really is the top: the table followed by some
    rest is a rearrangement of all players with a points average, and
    nobody in the rest has more points than anybody in the table. *)
Theorem topScorers_are_the_top (players : list Player.t) :
  let top := Analytics.topScorers players in
  let scorers :=
    List.filter
      (fun p => match Analytics.pts p with Some _ => true | None => false end)
      players in
  length top = Nat.min 10 (length scorers) ∧
  (∀ p, p ∈ top → p ∈ players ∧ is_Some (Analytics.pts p)) ∧
  (∀ i j p q, (i ≤ j)%nat → top !! i = Some p → top !! j = Some q →
              (Analytics.pts_or_0 q <= Analytics.pts_or_0 p)%Q) ∧
  ∃ rest,
    top ++ rest ≡ₚ scorers ∧
    ∀ p q, p ∈ top → q ∈ rest →
           (Analytics.pts_or_0 q <= Analytics.pts_or_0 p)%Q.
Proof.
  intros top scorers.
  pose proof (sort_desc_perm scorers) as Hperm.
  pose proof (Permutation_length Hperm) as Hlen.
  pose proof (sort_desc_sorted scorers) as Hsorted.
  assert (top = take 10 (Analytics.sort_desc scorers)) as Htop by done.
  rewrite <- (take_drop 10 (Analytics.sort_desc scorers)) in Hperm, Hsorted.
  rewrite <- Htop in Hperm, Hsorted.
  apply StronglySorted_app in Hsorted as (Hcross & Hs1 & _).
  split_and!.
  - by rewrite Htop, length_take, Hlen.
  - intros p Hp.
    assert (p ∈ scorers) as Hin by (rewrite <- Hperm; set_solver).
    apply list_elem_of_In, List.filter_In in Hin as [Hin Hpts].
    split; [by apply list_elem_of_In|].
    destruct (Analytics.pts p); [by eexists|done].
  - clear Hcross Hperm Htop. revert Hs1. generalize top. clear.
    intros l Hs. induction Hs as [|x l Hl IH Hx]; intros i j p q Hij Hi Hj.
    + done.
    + destruct i as [|i], j as [|j]; simplify_eq/=.
      * apply Qle_refl.
      * rewrite Forall_forall in Hx. apply Hx.
        by eapply list_elem_of_lookup_2.
      * lia.
      * eapply IH; [|done..]. lia.
  - exists (drop 10 (Analytics.sort_desc scorers)). split; [done|].
    intros p q Hp Hq. by apply Hcross.
Qed.

(** X22: a response that succeeds with a body of the shape of its endpoint
    never touches the error slot, so the message of an earlier failure
    stays until something clears it.  Among the calls only two clear it: a
    [fetchPlayers] on an empty collection and a [fetchTeams] that starts a
    load (also when a lookup starts it); every other call leaves the slot
    as it is. *)
Theorem error_slot_is_sticky (w : World) :
  (∀ i t data,
     inflight w !! i = Some t →
     body_fits t data = true →
     ∃ w',
       step w (Settle i (Fulfilled data)) = Some w' ∧
       error (store w') = error (store w)) ∧
  (∀ c,
     error (store (invoke c w)) = error (store w) ∨
     error (store (invoke c w)) = None ∧
     (c = CallFetchPlayers ∧ players (store w) = [] ∨
      (c = CallFetchTeams ∨ ∃ teamId, c = CallGetTeamById teamId) ∧
      teamsFetching (store w) = false)).
Proof.
  split.
  - intros i t data Hi Hfits. rewrite (step_settle _ _ _ _ Hi).
    destruct t, data; try discriminate Hfits; cbn;
      (eexists; split; [reflexivity|done]).
  - intros c. destruct c; cbn; auto.
    + unfold fetchPlayers. destruct (players (store w)); cbn; auto.
    + unfold fetchTeams. destruct (teamsFetching (store w)); cbn; eauto 6.
    + unfold fetchPlayerInfo. case_bool_decide; auto.
    + destruct (negb _ && negb _) eqn:Hg; auto.
      apply andb_true_iff in Hg as [_ Hf%negb_true_iff].
      unfold fetchTeams. rewrite Hf. cbn. right. eauto 6.
    + unfold batchPredictAll. destruct (_ || _); auto.
Qed.

Lemma error_slot_is_sticky_witness :
  inflight failed_then_predicting_world !! 0%nat =
    Some (AwaitPredict 1 72%Q 50%Q) ∧
  body_fits (AwaitPredict 1 72%Q 50%Q)
    (PredictionData (sample_prediction 1 None)) = true ∧
  ∃ w',
    step failed_then_predicting_world
      (Settle 0 (Fulfilled (PredictionData (sample_prediction 1 None)))) =
      Some w' ∧
    error (store w') = error (store failed_then_predicting_world) ∧
    error (store failed_then_predicting_world) = Some "Network Error".
Proof.
  assert (inflight failed_then_predicting_world !! 0%nat =
            Some (AwaitPredict 1 72%Q 50%Q)) as Hi by reflexivity.
  assert (body_fits (AwaitPredict 1 72%Q 50%Q)
            (PredictionData (sample_prediction 1 None)) = true) as Hfits
    by reflexivity.
  split; [exact Hi|]. split; [exact Hfits|].
  destruct (proj1 (error_slot_is_sticky failed_then_predicting_world)
              0%nat _ _ Hi Hfits) as (w' & Hstep & Herr).
  exists w'. split; [exact Hstep|]. split; [exact Herr|reflexivity].
Defined.
